(** * bot-images: connection manager, TTL cache, session controller and
      image query service

    A shallow embedding of the JavaScript sources
      - [src/index.js]            (messaging session controller),
      - [src/view.js]             (web server, de-duplicated connection, 5 minute cache),
      - [src/unnamed/part_000]    (web server, plain connection, no cache),
      - [src/unnamed/part_001]    (web server, retrying connection, 1 minute cache, pagination),
      - [src/models/Image.js]     (the document schema),
    followed by the properties proved about them.

    Conventions of the embedding.  Module-level [let] variables become the
    fields of a state record that every function takes and returns.  A
    promise is a handle (a [nat]) into a table of promise states; an
    [async] call either completes synchronously ([Return]) or hands back a
    promise the caller awaits ([Await]).  The external collaborators
    (mongoose, the messaging socket, the clock) are inputs: each call that
    leaves the program takes its answer from an environment record.
    [Date.now()] is an integer number of milliseconds, a [Z]. *)

From stdpp Require Import gmap strings list fin_maps sorting pretty.

Open Scope Z_scope.

(** ** JavaScript preliminaries *)

(** A thrown value.  Only its identity matters to the code. *)
Inductive JsError := MkError (message : string).

Global Instance JsError_eq_dec : EqDecision JsError.
Proof. solve_decision. Defined.

(** The two ways a promise settles, and a promise that has not yet. *)
Inductive Settled (A : Type) :=
  | Fulfilled (v : A)
  | Rejected (e : JsError).
Arguments Fulfilled {A} v.
Arguments Rejected {A} e.

Inductive PromiseState (A : Type) :=
  | Pending
  | Done (r : Settled A).
Arguments Pending {A}.
Arguments Done {A} r.

Global Instance Settled_eq_dec {A} `{EqDecision A} : EqDecision (Settled A).
Proof. solve_decision. Defined.

Global Instance PromiseState_eq_dec {A} `{EqDecision A} : EqDecision (PromiseState A).
Proof. solve_decision. Defined.

(** The values [connectDB] resolves with: [undefined] and [true]. *)
Inductive JsVal := JUndefined | JTrue.

Global Instance JsVal_eq_dec : EqDecision JsVal.
Proof. solve_decision. Defined.

(** A Node [Buffer]. *)
Definition Buffer := list Byte.byte.

(** What the caller of an [async] function holds after the call: the
    function ran to its [return] without suspending, or it returned a
    promise that is still to be awaited. *)
Inductive CallResult :=
  | Return (v : JsVal)
  | Await (p : nat).

(** How [mongoose.connect] ends. *)
Inductive Outcome :=
  | Connected
  | Failed (e : JsError).

(** What a caller holding [r] sees, given the promise table. *)
Definition observe (attempts : list (PromiseState JsVal)) (r : CallResult)
  : PromiseState JsVal :=
  match r with
  | Return v => Done (Fulfilled v)
  | Await p => default Pending (attempts !! p)
  end.

(** Number of connection attempts that have been started and have not
    settled. *)
Definition in_flight (attempts : list (PromiseState JsVal)) : nat :=
  length (filter (λ a, a = Pending) attempts).

(** [a || d] on a string that may be [undefined]: the empty string is falsy. *)
Definition js_or_string (a : option string) (d : string) : string :=
  match a with
  | Some s => if decide (s = "") then d else s
  | None => d
  end.

(** [a || d] on the result of [parseInt]: [None] is [NaN]; [NaN] and [0]
    are falsy. *)
Definition js_or_int (a : option Z) (d : Z) : Z :=
  match a with
  | Some z => if decide (z = 0) then d else z
  | None => d
  end.

(** ** The TTL cache ([view.js] 80-96, [part_001] 233-249) *)

Module Cache.

(** The object [{ data, timestamp }] stored in the [Map]. *)
Record CacheEntry (V : Type) := { data : V; timestamp : Z }.
Arguments data {V} _.
Arguments timestamp {V} _.

Section cache.
Context {V : Type}.
Variable CACHE_TTL : Z.

(** [now] is the value of [Date.now()] at the call; [None] is the [null]
    the source returns. *)
Definition getCachedData (cache : gmap string (CacheEntry V)) (now : Z)
    (key : string) : option V :=
  match cache !! key with
  | Some cached =>
      if decide (now - timestamp cached < CACHE_TTL)
      then Some (data cached)
      else None
  | None => None
  end.

Definition setCachedData (cache : gmap string (CacheEntry V)) (now : Z)
    (key : string) (data : V) : gmap string (CacheEntry V) :=
  <[key := {| data := data; timestamp := now |}]> cache.

End cache.

End Cache.

(** ** The connection manager *)

(** *** [view.js] 38-68: de-duplicated connection *)

Module View.

Definition CACHE_TTL : Z := 5 * 60 * 1000.

(** [isConnected] and [connectionPromise] are the module's variables.
    [attempts] is the table of the promises [mongoose.connect(...).then(...)
    .catch(...)] has produced, in the order of the calls to
    [mongoose.connect]; its length counts those calls. *)
Record State := {
  isConnected : bool;
  connectionPromise : option nat;
  attempts : list (PromiseState JsVal)
}.

Definition init : State :=
  {| isConnected := false; connectionPromise := None; attempts := [] |}.

Definition connectDB (s : State) : CallResult * State :=
  if isConnected s then (Return JUndefined, s)
  else match connectionPromise s with
       | Some p => (Await p, s)
       | None =>
           let p := length (attempts s) in
           (Await p,
            {| isConnected := isConnected s;
               connectionPromise := Some p;
               attempts := attempts s ++ [Pending] |})
       end.

(** [mongoose.connect] of attempt [p] settles: the [.then] or the [.catch]
    callback runs.  A promise settles once; settling anything but a
    pending attempt does nothing. *)
Definition settle (p : nat) (o : Outcome) (s : State) : State :=
  match attempts s !! p with
  | Some Pending =>
      match o with
      | Connected =>
          {| isConnected := true;
             connectionPromise := connectionPromise s;
             attempts := <[p := Done (Fulfilled JTrue)]> (attempts s) |}
      | Failed error =>
          {| isConnected := false;
             connectionPromise := None;
             attempts := <[p := Done (Rejected error)]> (attempts s) |}
      end
  | _ => s
  end.

(** The events of the process that touch the connection. *)
Inductive Event :=
  | Call
  | Settle (p : nat) (o : Outcome).

(** One event; a [Call] yields what its caller holds. *)
Definition step (ev : Event) (s : State) : list CallResult * State :=
  match ev with
  | Call => let '(r, s') := connectDB s in ([r], s')
  | Settle p o => ([], settle p o s)
  end.

Fixpoint run (evs : list Event) (s : State) : list CallResult * State :=
  match evs with
  | [] => ([], s)
  | ev :: evs' =>
      let '(rs, s1) := step ev s in
      let '(rs', s2) := run evs' s1 in
      (rs ++ rs', s2)
  end.

(** [await connectDB()] of a single request: the call, then, when the call
    had to wait, the settlement [o] of the attempt it waits for.  The
    result is [Pending] when the awaited promise never settles: the
    request is never resumed. *)
Definition await_connectDB (o : Outcome) (s : State)
  : PromiseState JsVal * State :=
  let '(r, s1) := connectDB s in
  match r with
  | Return v => (Done (Fulfilled v), s1)
  | Await p => let s2 := settle p o s1 in (observe (attempts s2) r, s2)
  end.

End View.

(** *** [part_001] 150-199: de-duplicated connection with a retry timer *)

Module Retry.

Definition MAX_RETRIES : nat := 3.
Definition CACHE_TTL : Z := 1 * 60 * 1000.

(** As in [View], with the counter [connectionAttempts] and the number of
    [setTimeout] callbacks that are armed and have not fired. *)
Record State := {
  isConnected : bool;
  connectionPromise : option nat;
  connectionAttempts : nat;
  attempts : list (PromiseState JsVal);
  timers : nat
}.

Definition init : State :=
  {| isConnected := false; connectionPromise := None;
     connectionAttempts := 0; attempts := []; timers := 0 |}.

Definition connectDB (s : State) : CallResult * State :=
  if isConnected s then (Return JTrue, s)
  else match connectionPromise s with
       | Some p => (Await p, s)
       | None =>
           let p := length (attempts s) in
           (Await p,
            {| isConnected := isConnected s;
               connectionPromise := Some p;
               connectionAttempts := S (connectionAttempts s);
               attempts := attempts s ++ [Pending];
               timers := timers s |})
       end.

Definition settle (p : nat) (o : Outcome) (s : State) : State :=
  match attempts s !! p with
  | Some Pending =>
      match o with
      | Connected =>
          {| isConnected := true;
             connectionPromise := connectionPromise s;
             connectionAttempts := connectionAttempts s;
             attempts := <[p := Done (Fulfilled JTrue)]> (attempts s);
             timers := timers s |}
      | Failed error =>
          {| isConnected := false;
             connectionPromise := None;
             connectionAttempts := connectionAttempts s;
             attempts := <[p := Done (Rejected error)]> (attempts s);
             timers := if decide (connectionAttempts s < MAX_RETRIES)%nat
                       then S (timers s) else timers s |}
      end
  | _ => s
  end.

(** A [setTimeout] callback fires: it calls [connectDB()] and drops the
    promise. *)
Definition fire_timer (s : State) : State :=
  match timers s with
  | O => s
  | S n =>
      snd (connectDB
             {| isConnected := isConnected s;
                connectionPromise := connectionPromise s;
                connectionAttempts := connectionAttempts s;
                attempts := attempts s;
                timers := n |})
  end.

Inductive Event :=
  | Call
  | Settle (p : nat) (o : Outcome)
  | Timer.

Definition step (ev : Event) (s : State) : list CallResult * State :=
  match ev with
  | Call => let '(r, s') := connectDB s in ([r], s')
  | Settle p o => ([], settle p o s)
  | Timer => ([], fire_timer s)
  end.

Fixpoint run (evs : list Event) (s : State) : list CallResult * State :=
  match evs with
  | [] => ([], s)
  | ev :: evs' =>
      let '(rs, s1) := step ev s in
      let '(rs', s2) := run evs' s1 in
      (rs ++ rs', s2)
  end.

Definition await_connectDB (o : Outcome) (s : State)
  : PromiseState JsVal * State :=
  let '(r, s1) := connectDB s in
  match r with
  | Return v => (Done (Fulfilled v), s1)
  | Await p => let s2 := settle p o s1 in (observe (attempts s2) r, s2)
  end.

End Retry.

(** *** [part_000] 38-56: connection without an in-flight marker *)

Module Plain.

(** [attempts] holds the promise of each call of [connectDB] that reached
    [await mongoose.connect(...)]; [logged] is what [console.error]
    received in the [catch] block. *)
Record State := {
  isConnected : bool;
  attempts : list (PromiseState JsVal);
  logged : list JsError
}.

Definition init : State :=
  {| isConnected := false; attempts := []; logged := [] |}.

Definition connectDB (s : State) : CallResult * State :=
  if isConnected s then (Return JUndefined, s)
  else
    let p := length (attempts s) in
    (Await p,
     {| isConnected := isConnected s;
        attempts := attempts s ++ [Pending];
        logged := logged s |}).

(** The awaited [mongoose.connect] of call [p] settles and the body of
    [connectDB] resumes: past the [await] on success, in the [catch] block
    on failure.  Either way the function then runs off its end. *)
Definition settle (p : nat) (o : Outcome) (s : State) : State :=
  match attempts s !! p with
  | Some Pending =>
      match o with
      | Connected =>
          {| isConnected := true;
             attempts := <[p := Done (Fulfilled JUndefined)]> (attempts s);
             logged := logged s |}
      | Failed error =>
          {| isConnected := isConnected s;
             attempts := <[p := Done (Fulfilled JUndefined)]> (attempts s);
             logged := logged s ++ [error] |}
      end
  | _ => s
  end.

Definition await_connectDB (o : Outcome) (s : State)
  : PromiseState JsVal * State :=
  let '(r, s1) := connectDB s in
  match r with
  | Return v => (Done (Fulfilled v), s1)
  | Await p => let s2 := settle p o s1 in (observe (attempts s2) r, s2)
  end.

End Plain.

(** ** The document schema ([models/Image.js]) and the store *)

Module Model.

(** A document of the [images] collection.  [_id] is the identifier
    mongoose gives every document; the other fields are the schema's. *)
Record Image := {
  _id : string;
  messageId : string;
  sender : string;
  timestamp : Z;
  imageData : Buffer;
  contentType : string;
  caption : string
}.

Definition duplicate_key : JsError := MkError "E11000 duplicate key error".

(** [doc.save()] on a new document.  The schema declares [messageId]
    [unique]: a document whose [messageId] is already stored is refused.
    [fault] is any other failure the store reports (validation, network);
    it is an input.  The collection keeps insertion order. *)
Definition save (fault : option JsError) (doc : Image) (db : list Image)
  : Settled unit * list Image :=
  match fault with
  | Some e => (Rejected e, db)
  | None =>
      if decide (messageId doc ∈ messageId <$> db)
      then (Rejected duplicate_key, db)
      else (Fulfilled (), db ++ [doc])
  end.

(** The schema declares no [_id], so [_id] is an object identifier and
    [findById] casts its argument to one before it queries.  A string of
    24 hexadecimal digits is cast by every version of the library.  A
    string of 12 characters is cast by some versions (as 12 raw bytes) and
    refused by others: its refusal is left to [fault] below.  Every other
    string is refused. *)
Definition is_hex (a : Ascii.ascii) : bool :=
  let n := Ascii.nat_of_ascii a in
  ((48 <=? n) && (n <=? 57) || (65 <=? n) && (n <=? 70)
   || (97 <=? n) && (n <=? 102))%nat.

Fixpoint all_hex (s : string) : bool :=
  match s with
  | EmptyString => true
  | String a s' => is_hex a && all_hex s'
  end.

Definition is_ObjectId (id : string) : bool :=
  (String.length id =? 24)%nat && all_hex id.

Definition cast_fails (id : string) : bool :=
  negb (is_ObjectId id) && negb (String.length id =? 12)%nat.

Definition cast_error : JsError := MkError "CastError: Cast to ObjectId failed".

(** [Image.findById(id)]: rejected with a [CastError] when [id] cannot be
    cast, otherwise the document with that [_id], or [null].  [fault] is
    any other failure of the query (the network, a time-out); it is an
    input. *)
Definition findById (fault : option JsError) (db : list Image) (id : string)
  : Settled (option Image) :=
  match fault with
  | Some e => Rejected e
  | None =>
      if cast_fails id then Rejected cast_error
      else Fulfilled (find (λ d, bool_decide (_id d = id)) db)
  end.

(** [timestamp: -1]: [a] may come before [b]. *)
Definition newer_first (a b : Image) : Prop := timestamp b ≤ timestamp a.

Global Instance newer_first_dec a b : Decision (newer_first a b).
Proof. unfold newer_first. apply _. Defined.

(** [Image.find().sort({ timestamp: -1 })]. *)
Definition find_sorted (db : list Image) : list Image :=
  merge_sort newer_first db.

(** [Image.find().sort({ timestamp: -1 }).skip(skip).limit(limit)].  The
    store refuses a negative [skip]; a negative [limit] counts as its
    absolute value. *)
Definition find_page (fault : option JsError) (db : list Image)
    (skip limit : Z) : Settled (list Image) :=
  match fault with
  | Some e => Rejected e
  | None =>
      if decide (skip < 0)
      then Rejected (MkError "skip must be non-negative")
      else Fulfilled (take (Z.to_nat (Z.abs limit))
                        (drop (Z.to_nat skip) (find_sorted db)))
  end.

End Model.

(** ** The messaging session controller ([index.js]) *)

Module Session.

(** [m.key], the content object of one message type, and a message.
    [message] is [None] when [m.message] is missing; otherwise it lists the
    own properties of [m.message] in the order of [Object.keys]. *)
Record MessageKey := { id : string; remoteJid : string }.

Record MessageContent := {
  mimetype : option string;
  caption : option string
}.

Record WAMessage := {
  key : MessageKey;
  message : option (list (string * MessageContent))
}.

(** [obj[k]]. *)
Definition property (obj : list (string * MessageContent)) (k : string)
  : option MessageContent :=
  snd <$> find (λ kv, bool_decide (fst kv = k)) obj.

(** What leaves the handler: a document handed to [save], a text handed to
    [sock.sendMessage]. *)
Inductive Effect :=
  | ESave (doc : Model.Image)
  | ESend (jid text : string).

(** The answers of the collaborators during one run of the handler. *)
Record Env := {
  downloadMediaMessage : WAMessage → Settled Buffer;
  save_fault : option JsError;
  sendMessage : string → string → Settled unit;
  Date_now : Z;
  ObjectId : string
}.

(** The body of an [async] function over the collection: it ends
    fulfilled or rejected, having produced effects and a new collection. *)
Definition Prog (A : Type) : Type :=
  list Model.Image → Settled A * (list Effect * list Model.Image).

Definition ret {A} (a : A) : Prog A := λ db, (Fulfilled a, ([], db)).

Definition throw {A} (e : JsError) : Prog A := λ db, (Rejected e, ([], db)).

Definition bind {A B} (m : Prog A) (k : A → Prog B) : Prog B := λ db,
  match m db with
  | (Fulfilled a, (t1, db1)) =>
      let '(r, (t2, db2)) := k a db1 in (r, (t1 ++ t2, db2))
  | (Rejected e, out) => (Rejected e, out)
  end.

(** [try { m } catch (error) { h error }]. *)
Definition try_catch {A} (m : Prog A) (h : JsError → Prog A) : Prog A := λ db,
  match m db with
  | (Fulfilled a, out) => (Fulfilled a, out)
  | (Rejected e, (t1, db1)) =>
      let '(r, (t2, db2)) := h e db1 in (r, (t1 ++ t2, db2))
  end.

Notation "'let!' x ':=' m 'in' k" := (bind m (λ x, k))
  (at level 10, x name, m at level 100, k at level 200).

(** [await p] for a promise of a collaborator that has settled as [r]. *)
Definition await {A} (r : Settled A) : Prog A :=
  match r with
  | Fulfilled a => ret a
  | Rejected e => throw e
  end.

Definition image_save (sock : Env) (image : Model.Image) : Prog unit := λ db,
  let '(r, db') := Model.save (save_fault sock) image db in
  (r, ([ESave image], db')).

Definition sock_sendMessage (sock : Env) (jid text : string) : Prog unit :=
  λ db, (sendMessage sock jid text, ([ESend jid text], db)).

Definition type_error : JsError :=
  MkError "TypeError: Cannot read properties of undefined".

Definition error_text : string :=
  "❌ Error processing image. Please try again.".

(** The ['messages.upsert'] listener, lines 70-107. *)
Definition messages_upsert (sock : Env) (messages : list WAMessage)
  : Prog unit :=
  match messages !! 0%nat with
  | None => throw type_error
  | Some m =>
      match message m with
      | None => ret ()
      | Some m_message =>
          let messageType := fst <$> head m_message in
          let messageContent := messageType ≫= property m_message in
          if decide (messageType = Some "imageMessage") then
            try_catch
              (let! buffer := await (downloadMediaMessage sock m) in
               let! content :=
                 match messageContent with
                 | Some c => ret c
                 | None => throw type_error
                 end in
               let contentType := js_or_string (mimetype content) "image/jpeg" in
               let image :=
                 {| Model._id := ObjectId sock;
                    Model.messageId := id (key m);
                    Model.sender := remoteJid (key m);
                    Model.timestamp := Date_now sock;
                    Model.imageData := buffer;
                    Model.contentType := contentType;
                    Model.caption := js_or_string (caption content) "" |} in
               image_save sock image)
              (λ error, sock_sendMessage sock (remoteJid (key m)) error_text)
          else ret ()
      end
  end.

(** The ['connection.update'] listener, lines 56-68.  [connection] is the
    event's field of that name and [statusCode] the value of
    [lastDisconnect?.error?.output?.statusCode], [None] for [undefined].
    [loggedOut] stands for the transport library's constant
    [DisconnectReason.loggedOut]. *)
Record ConnectionUpdate := {
  connection : option string;
  statusCode : option Z
}.

Inductive Action :=
  | ConsoleLog (text : string)
  | ConnectToWhatsApp.

Section controller.
Variable loggedOut : Z.

Definition connection_update (u : ConnectionUpdate) : list Action :=
  if decide (connection u = Some "close") then
    let shouldReconnect := bool_decide (statusCode u ≠ Some loggedOut) in
    if shouldReconnect
    then [ConsoleLog "Reconnecting..."; ConnectToWhatsApp]
    else [ConsoleLog "Logged out. Scan QR again."]
  else if decide (connection u = Some "open") then
    [ConsoleLog "✅ Connected to WhatsApp!"]
  else [].

(** The controller as a whole.  [live] are the sockets whose listeners are
    registered, [created] counts the calls of [connectToWhatsApp] (each
    makes one socket and registers the listeners on it). *)
Record Controller := {
  live : list nat;
  created : nat
}.

Definition connectToWhatsApp (c : Controller) : Controller :=
  {| live := live c ++ [created c]; created := S (created c) |}.

(** Line 114. *)
Definition start : Controller :=
  connectToWhatsApp {| live := []; created := 0 |}.

Definition perform (c : Controller) (a : Action) : Controller :=
  match a with
  | ConsoleLog _ => c
  | ConnectToWhatsApp => connectToWhatsApp c
  end.

(** Socket [sock] emits a ['connection.update'] event.  Only a socket with
    registered listeners reaches the handler, and the transport drops the
    listeners of a socket once it has reported its closure. *)
Definition deliver (sock : nat) (u : ConnectionUpdate) (c : Controller)
  : Controller :=
  if decide (sock ∈ live c) then
    let c1 :=
      if decide (connection u = Some "close")
      then {| live := filter (λ k, k ≠ sock) (live c); created := created c |}
      else c in
    foldl perform c1 (connection_update u)
  else c.

Fixpoint deliver_all (evs : list (nat * ConnectionUpdate)) (c : Controller)
  : Controller :=
  match evs with
  | [] => c
  | (sock, u) :: evs' => deliver_all evs' (deliver sock u c)
  end.

End controller.

End Session.

(** ** The image query service ([view.js] 98-258, [part_001] 251-420) *)

Module Web.

(** What the handlers put in the cache: the object
    [{ contentType, imageData }] or an array of documents. *)
Inductive CacheVal :=
  | CImage (contentType : string) (imageData : Buffer)
  | CImages (images : list Model.Image).

(** The argument of [res.send] / [res.json]; [BGallery] is the HTML page
    rendered from the documents.  [BSendBinary] is [res.send] of the
    [Binary] object a [.lean()] query gives for a buffer field: not a
    [Buffer], so it goes through [res.json] and the body is the JSON text
    of the object (its bytes in base64, in quotes), not the bytes. *)
Inductive Body :=
  | BSend (data : Buffer)
  | BSendBinary (data : Buffer)
  | BSendUndefined
  | BText (text : string)
  | BJson (v : CacheVal)
  | BJsonError (error : string)
  | BGallery (images : list Model.Image).

Record Response := {
  status : Z;
  headers : list (string * string);
  body : Body
}.

(** The process state of a server: its connection manager and its cache. *)
Record Server (Conn : Type) := {
  conn : Conn;
  cache : gmap string (Cache.CacheEntry CacheVal)
}.
Arguments conn {Conn} _.
Arguments cache {Conn} _.

(** The inputs of one request: [Date.now()] at the cache lookup and at the
    cache fill, how a connection attempt the request waits for ends, and a
    failure of the query, if any. *)
Record ReqEnv := {
  t_read : Z;
  t_write : Z;
  connect_outcome : Outcome;
  query_fault : option JsError
}.

Inductive Request :=
  | GetImage (id : string)
  | ListAll
  | ListPage (page limit : option Z)
  | Root.

Definition send_image (contentType : option string) (imageData : option Buffer)
  : Response :=
  {| status := 200;
     headers := [("Content-Type", default "undefined" contentType);
                 ("Cache-Control", "public, max-age=31536000")];
     body := from_option BSend BSendUndefined imageData |}.

(** The same for an image read with [.lean()]: [res.send] passes the
    [Binary] to [res.json], which sends its JSON text as a string, and
    sending a string puts the charset on the content type that was set. *)
Definition send_image_lean (contentType : option string)
    (imageData : option Buffer) : Response :=
  {| status := 200;
     headers := [("Content-Type",
                  default "undefined" contentType +:+ "; charset=utf-8");
                 ("Cache-Control", "public, max-age=31536000")];
     body := from_option BSendBinary BSendUndefined imageData |}.

(** [lean] tells whether the handler reads the document with [.lean()]
    ([part_001] 262) or as a mongoose document ([view.js] 109). *)
Definition send_doc (lean : bool) (contentType : option string)
    (imageData : option Buffer) : Response :=
  if lean then send_image_lean contentType imageData
  else send_image contentType imageData.

Definition send_status (code : Z) (text : string) : Response :=
  {| status := code; headers := []; body := BText text |}.

Definition json (b : Body) : Response :=
  {| status := 200;
     headers := [("Cache-Control", "public, max-age=300")];
     body := b |}.

Definition json_error (error : string) : Response :=
  {| status := 500; headers := []; body := BJsonError error |}.

(** The fields [contentType] and [imageData] of a cached value; an array
    has neither. *)
Definition cached_contentType (v : CacheVal) : option string :=
  match v with CImage ct _ => Some ct | CImages _ => None end.

Definition cached_imageData (v : CacheVal) : option Buffer :=
  match v with CImage _ d => Some d | CImages _ => None end.

Section handlers.
Context {Conn : Type}.
Variable CACHE_TTL : Z.
Variable await_connectDB : Outcome → Conn → PromiseState JsVal * Conn.
Variable lean : bool.

(** The common shape of the handlers after a cache miss:
    [await connectDB()], then the query, inside [try]; [on_error] is the
    [catch] block.  [None] is a request that is never answered. *)
Definition after_miss {A} (env : ReqEnv) (st : Server Conn)
    (query : Settled A) (on_error : Response)
    (k : A → Server Conn → option Response * Server Conn)
  : option Response * Server Conn :=
  let '(r, conn') := await_connectDB (connect_outcome env) (conn st) in
  let st' := {| conn := conn'; cache := cache st |} in
  match r with
  | Pending => (None, st')
  | Done (Rejected _) => (Some on_error, st')
  | Done (Fulfilled _) =>
      match query with
      | Rejected _ => (Some on_error, st')
      | Fulfilled a => k a st'
      end
  end.

(** [GET /api/image/:id], [view.js] 99-126 and [part_001] 252-279. *)
Definition get_image (env : ReqEnv) (db : list Model.Image) (id : string)
    (st : Server Conn) : option Response * Server Conn :=
  let key := "image_" +:+ id in
  match Cache.getCachedData CACHE_TTL (cache st) (t_read env) key with
  | Some cachedImage =>
      (Some (send_doc lean (cached_contentType cachedImage)
                             (cached_imageData cachedImage)), st)
  | None =>
      after_miss env st (Model.findById (query_fault env) db id)
        (send_status 500 "Error serving image")
        (λ image st',
           match image with
           | None => (Some (send_status 404 "Image not found"), st')
           | Some image =>
               (Some (send_doc lean (Some (Model.contentType image))
                                    (Some (Model.imageData image))),
                {| conn := conn st';
                   cache := Cache.setCachedData (cache st') (t_write env) key
                              (CImage (Model.contentType image)
                                      (Model.imageData image)) |})
           end)
  end.

(** [GET /api/images] of [view.js]. *)
Definition list_all (env : ReqEnv) (db : list Model.Image)
    (st : Server Conn) : option Response * Server Conn :=
  match Cache.getCachedData CACHE_TTL (cache st) (t_read env) "all_images" with
  | Some cachedImages => (Some (json (BJson cachedImages)), st)
  | None =>
      after_miss env st
        (match query_fault env with
         | Some e => Rejected e
         | None => Fulfilled (Model.find_sorted db)
         end)
        (json_error "Error fetching images")
        (λ images st',
           (Some (json (BJson (CImages images))),
            {| conn := conn st';
               cache := Cache.setCachedData (cache st') (t_write env)
                          "all_images" (CImages images) |}))
  end.

(** The cache key of [GET /api/images] of [part_001]. *)
Definition page_key (page : Z) : string := "images_page_" +:+ pretty page.

(** [GET /api/images?page=&limit=] of [part_001]; [page_q] and [limit_q]
    are [parseInt(req.query.page)] and [parseInt(req.query.limit)]. *)
Definition list_page (env : ReqEnv) (db : list Model.Image)
    (page_q limit_q : option Z) (st : Server Conn)
  : option Response * Server Conn :=
  let page := js_or_int page_q 1 in
  let limit := js_or_int limit_q 10 in
  let skip := (page - 1) * limit in
  match Cache.getCachedData CACHE_TTL (cache st) (t_read env) (page_key page) with
  | Some cachedImages => (Some (json (BJson cachedImages)), st)
  | None =>
      after_miss env st (Model.find_page (query_fault env) db skip limit)
        (json_error "Error fetching images")
        (λ images st',
           (Some (json (BJson (CImages images))),
            {| conn := conn st';
               cache := Cache.setCachedData (cache st') (t_write env)
                          (page_key page) (CImages images) |}))
  end.

(** [GET /]: the gallery page; [images.map] throws on a cached value that
    is not an array. *)
Definition root (env : ReqEnv) (db : list Model.Image)
    (st : Server Conn) : option Response * Server Conn :=
  match Cache.getCachedData CACHE_TTL (cache st) (t_read env) "all_images" with
  | Some (CImages images) => (Some (json (BGallery images)), st)
  | Some (CImage _ _) => (Some (send_status 500 "Error fetching images"), st)
  | None =>
      after_miss env st
        (match query_fault env with
         | Some e => Rejected e
         | None => Fulfilled (Model.find_sorted db)
         end)
        (send_status 500 "Error fetching images")
        (λ images st',
           (Some (json (BGallery images)),
            {| conn := conn st';
               cache := Cache.setCachedData (cache st') (t_write env)
                          "all_images" (CImages images) |}))
  end.

(** The routes of the two servers taken together: [view.js] serves
    [GetImage], [ListAll] and [Root]; [part_001] serves [GetImage],
    [ListPage] and [Root]. *)
Definition handle (env : ReqEnv) (db : list Model.Image) (req : Request)
    (st : Server Conn) : option Response * Server Conn :=
  match req with
  | GetImage id => get_image env db id st
  | ListAll => list_all env db st
  | ListPage page limit => list_page env db page limit st
  | Root => root env db st
  end.

(** The states a server and its store pass through: the process starts
    with an empty cache over any collection; documents are added to the
    collection; requests are served. *)
Inductive reachable : list Model.Image → Server Conn → Prop :=
  | reach_start db conn0 :
      reachable db {| conn := conn0; cache := ∅ |}
  | reach_insert db st doc :
      reachable db st → reachable (db ++ [doc]) st
  | reach_request db st env req :
      reachable db st → reachable db (snd (handle env db req st)).

End handlers.

(** The handlers of [view.js]: its connection manager, its TTL. *)
Definition view_get_image :=
  get_image View.CACHE_TTL View.await_connectDB false.

Definition view_list_all :=
  list_all View.CACHE_TTL View.await_connectDB.


Definition paged_list_page :=
  list_page Retry.CACHE_TTL Retry.await_connectDB.

End Web.

(** ** The servers without a cache *)

(** *** [part_000] 38-95: events of the connection, and the handlers *)

Module PlainServer.

Inductive Event :=
  | Call
  | Settle (p : nat) (o : Outcome).

Definition step (ev : Event) (s : Plain.State)
  : list CallResult * Plain.State :=
  match ev with
  | Call => let '(r, s') := Plain.connectDB s in ([r], s')
  | Settle p o => ([], Plain.settle p o s)
  end.

Fixpoint run (evs : list Event) (s : Plain.State)
  : list CallResult * Plain.State :=
  match evs with
  | [] => ([], s)
  | ev :: evs' =>
      let '(rs, s1) := step ev s in
      let '(rs', s2) := run evs' s1 in
      (rs ++ rs', s2)
  end.

(** The shape of the three handlers: [await connectDB()], then the query,
    inside [try]; [on_error] is the [catch] block. *)
Definition after_connect {A} (env : Web.ReqEnv) (s : Plain.State)
    (query : Settled A) (on_error : Web.Response) (k : A → Web.Response)
  : option Web.Response * Plain.State :=
  let '(r, s') := Plain.await_connectDB (Web.connect_outcome env) s in
  match r with
  | Pending => (None, s')
  | Done (Rejected _) => (Some on_error, s')
  | Done (Fulfilled _) =>
      match query with
      | Rejected _ => (Some on_error, s')
      | Fulfilled a => (Some (k a), s')
      end
  end.

(** [GET /api/image/:id], lines 68-82. *)
Definition get_image (env : Web.ReqEnv) (db : list Model.Image) (id : string)
    (s : Plain.State) : option Web.Response * Plain.State :=
  after_connect env s (Model.findById (Web.query_fault env) db id)
    (Web.send_status 500 "Error serving image")
    (λ image,
       match image with
       | None => Web.send_status 404 "Image not found"
       | Some image =>
           Web.send_image (Some (Model.contentType image))
                          (Some (Model.imageData image))
       end).

(** [GET /api/images], lines 85-95. *)
Definition list_all (env : Web.ReqEnv) (db : list Model.Image)
    (s : Plain.State) : option Web.Response * Plain.State :=
  after_connect env s
    (match Web.query_fault env with
     | Some e => Rejected e
     | None => Fulfilled (Model.find_sorted db)
     end)
    (Web.json_error "Error fetching images")
    (λ images, Web.json (Web.BJson (Web.CImages images))).

End PlainServer.

(** *** [part_001] 22-55: connection at start-up, queries without a
    connection manager, no [Cache-Control] *)

Module SimpleServer.

(** [GET /api/image/:id], lines 32-44. *)
Definition get_image (fault : option JsError) (db : list Model.Image)
    (id : string) : Web.Response :=
  match Model.findById fault db id with
  | Rejected _ => Web.send_status 500 "Error serving image"
  | Fulfilled None => Web.send_status 404 "Image not found"
  | Fulfilled (Some image) =>
      {| Web.status := 200;
         Web.headers := [("Content-Type", Model.contentType image)];
         Web.body := Web.BSend (Model.imageData image) |}
  end.

(** [GET /api/images], lines 47-55. *)
Definition list_all (fault : option JsError) (db : list Model.Image)
  : Web.Response :=
  match fault with
  | Some _ => Web.json_error "Error fetching images"
  | None =>
      {| Web.status := 200; Web.headers := [];
         Web.body := Web.BJson (Web.CImages (Model.find_sorted db)) |}
  end.

End SimpleServer.

(** * Specification-side definitions *)

(** The promise a settlement [o] of [mongoose.connect] gives to the
    callers that share the attempt, in the de-duplicating managers. *)
Definition settled_as (o : Outcome) : Settled JsVal :=
  match o with
  | Connected => Fulfilled JTrue
  | Failed e => Rejected e
  end.

(** The operations of a connection manager, so that one statement can be
    made about several of them. *)
Record Manager := {
  St : Type;
  m_init : St;
  m_Event : Type;
  m_call : m_Event;
  m_run : list m_Event → St → list CallResult * St;
  m_settle : nat → Outcome → St → St;
  m_attempts : St → list (PromiseState JsVal);
  m_connected : St → bool
}.

Definition View_manager : Manager :=
  {| St := View.State; m_init := View.init; m_Event := View.Event;
     m_call := View.Call; m_run := View.run; m_settle := View.settle;
     m_attempts := View.attempts; m_connected := View.isConnected |}.

Definition Retry_manager : Manager :=
  {| St := Retry.State; m_init := Retry.init; m_Event := Retry.Event;
     m_call := Retry.Call; m_run := Retry.run; m_settle := Retry.settle;
     m_attempts := Retry.attempts; m_connected := Retry.isConnected |}.

(** [n] calls of [connectDB()] in a row, none of them resumed yet. *)
Definition calls (M : Manager) (n : nat) (s : St M) : list CallResult * St M :=
  m_run M (replicate n (m_call M)) s.

(** Every caller of [rs] sees the promise settled as [res] in state [s]. *)
Definition all_resolve (M : Manager) (rs : list CallResult) (s : St M)
    (res : Settled JsVal) : Prop :=
  ∀ r, r ∈ rs → observe (m_attempts M s) r = Done res.

(** De-duplication, in every state [s] the process can be in (after any
    sequence of calls, settlements and timers):
    - at most one attempt is in flight;
    - while attempt [p] is in flight, [n] calls all return [p], leave the
      state as it is (so start nothing), and resolve alike once [p]
      settles;
    - when connected, [n] calls complete at once and succeed, starting
      nothing;
    - when disconnected with nothing in flight, [n > 0] calls start exactly
      one attempt, all return it, and resolve alike once it settles;
    - a promise that has settled stays as it is, whatever happens later. *)
Definition Deduplicating (M : Manager) : Prop :=
  ∀ evs : list (m_Event M),
    let s := snd (m_run M evs (m_init M)) in
    (in_flight (m_attempts M s) ≤ 1)%nat
    ∧ (∀ p n, m_attempts M s !! p = Some Pending →
         calls M n s = (replicate n (Await p), s)
         ∧ ∀ o, all_resolve M (replicate n (Await p)) (m_settle M p o s)
                  (settled_as o))
    ∧ (∀ n, m_connected M s = true →
         ∃ v, calls M n s = (replicate n (Return v), s))
    ∧ (∀ n, m_connected M s = false → in_flight (m_attempts M s) = 0%nat →
         let p := length (m_attempts M s) in
         let s' := snd (calls M (S n) s) in
         fst (calls M (S n) s) = replicate (S n) (Await p)
         ∧ length (m_attempts M s') = S (length (m_attempts M s))
         ∧ in_flight (m_attempts M s') = 1%nat
         ∧ ∀ o, all_resolve M (replicate (S n) (Await p)) (m_settle M p o s')
                  (settled_as o))
    ∧ (∀ p res later, m_attempts M s !! p = Some (Done res) →
         m_attempts M (snd (m_run M later s)) !! p = Some (Done res)).

(** The invariant behind it: a pending attempt is the one recorded in
    [connectionPromise], and while disconnected the recorded promise is
    pending. *)
Definition View_wf (s : View.State) : Prop :=
  (∀ p, View.attempts s !! p = Some Pending →
     View.isConnected s = false ∧ View.connectionPromise s = Some p)
  ∧ (∀ p, View.isConnected s = false → View.connectionPromise s = Some p →
       View.attempts s !! p = Some Pending).

Definition Retry_wf (s : Retry.State) : Prop :=
  (∀ p, Retry.attempts s !! p = Some Pending →
     Retry.isConnected s = false ∧ Retry.connectionPromise s = Some p)
  ∧ (∀ p, Retry.isConnected s = false → Retry.connectionPromise s = Some p →
       Retry.attempts s !! p = Some Pending).


(** [Object.keys(m.message)[0]], when [m.message] is there. *)
Definition first_type (m : Session.WAMessage) : option string :=
  Session.message m ≫= λ obj, fst <$> head obj.

(** The parts of what a run of the listener yields. *)
Definition outcome {A} (r : Settled A * (list Session.Effect * list Model.Image))
  : Settled A := fst r.

Definition effects {A} (r : Settled A * (list Session.Effect * list Model.Image))
  : list Session.Effect := fst (snd r).

Definition collection {A}
    (r : Settled A * (list Session.Effect * list Model.Image))
  : list Model.Image := snd (snd r).

(** The controller is at most one socket away from halting: either no
    socket is registered, or exactly one, made by an earlier
    [connectToWhatsApp]. *)
Definition Controller_inv (c : Session.Controller) : Prop :=
  Session.live c = [] ∨
  ∃ k, Session.live c = [k] ∧ (k < Session.created c)%nat.

(** ** Sample inputs *)

(** A socket whose download and send succeed, and one whose send fails. *)
Definition sock_ok : Session.Env :=
  {| Session.downloadMediaMessage := λ _, Fulfilled [Byte.x89; Byte.x50];
     Session.save_fault := None;
     Session.sendMessage := λ _ _, Fulfilled ();
     Session.Date_now := 1700000000000;
     Session.ObjectId := "65a000000000000000000001" |}.

Definition send_failure : JsError := MkError "Connection Closed".

Definition sock_send_fails : Session.Env :=
  {| Session.downloadMediaMessage := λ _, Fulfilled [Byte.x89; Byte.x50];
     Session.save_fault := None;
     Session.sendMessage := λ _ _, Rejected send_failure;
     Session.Date_now := 1700000000500;
     Session.ObjectId := "65a000000000000000000002" |}.

(** An image message without MIME type or caption, and a text message. *)
Definition image_m1 : Session.WAMessage :=
  {| Session.key := {| Session.id := "m1"; Session.remoteJid := "s1" |};
     Session.message :=
       Some [("imageMessage",
              {| Session.mimetype := None; Session.caption := None |})] |}.

Definition text_m2 : Session.WAMessage :=
  {| Session.key := {| Session.id := "m2"; Session.remoteJid := "s2" |};
     Session.message :=
       Some [("conversation",
              {| Session.mimetype := None; Session.caption := None |})] |}.

(** The document [image_m1] becomes through [sock_ok]. *)
Definition stored_m1 : Model.Image :=
  {| Model._id := "65a000000000000000000001";
     Model.messageId := "m1";
     Model.sender := "s1";
     Model.timestamp := 1700000000000;
     Model.imageData := [Byte.x89; Byte.x50];
     Model.contentType := "image/jpeg";
     Model.caption := "" |}.

(** A closure reported with the status code [code], or with none. *)
Definition closed_with (code : option Z) : Session.ConnectionUpdate :=
  {| Session.connection := Some "close"; Session.statusCode := code |}.

(** ** The image query service *)

(** Every cached image belongs to a stored document with that [_id], and
    is that document's content type and bytes. *)
Definition Coherent (db : list Model.Image)
    (cache : gmap string (Cache.CacheEntry Web.CacheVal)) : Prop :=
  ∀ id e, cache !! ("image_" +:+ id) = Some e →
    ∃ doc, doc ∈ db ∧ Model._id doc = id
           ∧ Cache.data e
             = Web.CImage (Model.contentType doc) (Model.imageData doc).

(** [await connectDB()] of the request with inputs [env] comes back
    fulfilled in state [st]. *)
Definition connects {Conn}
    (await_connectDB : Outcome → Conn → PromiseState JsVal * Conn)
    (env : Web.ReqEnv) (st : Web.Server Conn) : Prop :=
  ∃ v, fst (await_connectDB (Web.connect_outcome env) (Web.conn st))
       = Done (Fulfilled v).

(** The array a [200] JSON response carries. *)
Definition json_images (r : option Web.Response) : option (list Model.Image) :=
  match r with
  | Some {| Web.status := 200; Web.body := Web.BJson (Web.CImages l) |} => Some l
  | _ => None
  end.

(** A store of [n] documents, the [k]-th created at time [k]. *)
Definition sample_doc (k : nat) : Model.Image :=
  {| Model._id := pretty k;
     Model.messageId := "m" +:+ pretty k;
     Model.sender := "s1";
     Model.timestamp := Z.of_nat k;
     Model.imageData := [Byte.x89];
     Model.contentType := "image/png";
     Model.caption := "" |}.

Definition sample_store (n : nat) : list Model.Image :=
  sample_doc <$> seq 1 n.

(** Documents whose [_id] is an object identifier (for [k < 10]). *)
Definition stored_image (k : nat) : Model.Image :=
  {| Model._id := "65a00000000000000000000" +:+ pretty k;
     Model.messageId := "m" +:+ pretty k;
     Model.sender := "s1";
     Model.timestamp := Z.of_nat k;
     Model.imageData := [Byte.x89];
     Model.contentType := "image/png";
     Model.caption := "" |}.

Definition image_store (n : nat) : list Model.Image :=
  stored_image <$> seq 1 n.

(** A request at time [t] whose collaborators all succeed. *)
Definition request_at (t : Z) : Web.ReqEnv :=
  {| Web.t_read := t; Web.t_write := t;
     Web.connect_outcome := Connected; Web.query_fault := None |}.

(** A server process right after its start. *)
Definition view_start : Web.Server View.State :=
  {| Web.conn := View.init; Web.cache := ∅ |}.

Definition paged_start : Web.Server Retry.State :=
  {| Web.conn := Retry.init; Web.cache := ∅ |}.

(** ** Further definitions for the properties beyond the claims *)

(** The number of closures in [evs] that are not "logged out". *)
Definition recoverable_closes (loggedOut : Z)
    (evs : list (nat * Session.ConnectionUpdate)) : nat :=
  length (filter (λ ev, Session.connection ev.2 = Some "close"
                        ∧ Session.statusCode ev.2 ≠ Some loggedOut) evs).

(** Socket after socket reports a closure with [code]: the [k]-th event
    comes from socket [k]. *)
Definition closures_in_a_row (code : option Z) (n : nat)
  : list (nat * Session.ConnectionUpdate) :=
  (λ k, (k, closed_with code)) <$> seq 0 n.

(** What the retry timers of [part_001] keep true as long as no request
    calls [connectDB()] in between: the counter counts the attempts, it
    stays within [MAX_RETRIES], at most one timer is armed, and a timer is
    armed only below the bound and with nothing in flight. *)
Definition Retry_budget (s : Retry.State) : Prop :=
  Retry_wf s
  ∧ Retry.connectionAttempts s = length (Retry.attempts s)
  ∧ (Retry.connectionAttempts s ≤ Retry.MAX_RETRIES)%nat
  ∧ (Retry.timers s ≤ 1)%nat
  ∧ (Retry.timers s = 1%nat →
       (Retry.connectionAttempts s < Retry.MAX_RETRIES)%nat
       ∧ ∀ p, Retry.attempts s !! p ≠ Some Pending).

(** The cache key a request looks up. *)
Definition request_key (req : Web.Request) : string :=
  match req with
  | Web.GetImage id => "image_" +:+ id
  | Web.ListAll => "all_images"
  | Web.ListPage page _ => Web.page_key (js_or_int page 1)
  | Web.Root => "all_images"
  end.

(** The routes of [view.js] (lines 99, 129, 148) and a run of its
    process: a sequence of requests, each with its inputs and the store
    as it is when the request arrives.  In [view.js] nothing but a request
    calls [connectDB()] and every such call is awaited inside the [try]
    of its handler, so requests are all that happens to the server. *)
Inductive ViewRequest :=
  | ViewImage (id : string)
  | ViewImages
  | ViewGallery.

Definition view_route (r : ViewRequest) : Web.Request :=
  match r with
  | ViewImage id => Web.GetImage id
  | ViewImages => Web.ListAll
  | ViewGallery => Web.Root
  end.

Fixpoint view_serve_all
    (reqs : list (Web.ReqEnv * list Model.Image * ViewRequest))
    (st : Web.Server View.State)
  : list (option Web.Response) * Web.Server View.State :=
  match reqs with
  | [] => ([], st)
  | (env, db, req) :: reqs' =>
      let '(r, st1) :=
        Web.handle View.CACHE_TTL View.await_connectDB false env db
          (view_route req) st in
      let '(rs, st2) := view_serve_all reqs' st1 in
      (r :: rs, st2)
  end.

(** A response was sent, with one of the statuses the handlers use. *)
Definition answered (r : option Web.Response) : Prop :=
  ∃ resp, r = Some resp
          ∧ (Web.status resp = 200 ∨ Web.status resp = 404
             ∨ Web.status resp = 500).

(** Status and body of a response, headers left aside. *)
Definition status_body (r : Web.Response) : Z * Web.Body :=
  (Web.status r, Web.body r).

(** A request that fails to connect with [error]. *)
Definition failing_at (t : Z) (error : JsError) : Web.ReqEnv :=
  {| Web.t_read := t; Web.t_write := t;
     Web.connect_outcome := Failed error; Web.query_fault := None |}.

(** The texts a run has sent, with their recipients, in order. *)
Definition notifications (effs : list Session.Effect) : list (string * string) :=
  omap (λ eff, match eff with
               | Session.ESend jid text => Some (jid, text)
               | Session.ESave _ => None
               end) effs.

(** * Properties *)

(** ** The TTL cache *)

Lemma getCachedData_Some {V} (ttl : Z) (cache : gmap string (Cache.CacheEntry V))
    (now : Z) (key : string) (v : V) :
  Cache.getCachedData ttl cache now key = Some v ↔
  ∃ e, cache !! key = Some e ∧ Cache.data e = v ∧ now - Cache.timestamp e < ttl.
Proof.
  unfold Cache.getCachedData. split.
  - destruct (cache !! key) as [e|]; [|done].
    case_decide; [|done]. intros [= <-]. eauto.
  - intros (e & -> & <- & Hlt). by rewrite decide_True.
Qed.

Lemma getCachedData_None {V} (ttl : Z) (cache : gmap string (Cache.CacheEntry V))
    (now : Z) (key : string) :
  Cache.getCachedData ttl cache now key = None ↔
  ∀ e, cache !! key = Some e → ttl ≤ now - Cache.timestamp e.
Proof.
  unfold Cache.getCachedData. split.
  - destruct (cache !! key) as [e|]; [|done].
    case_decide; [done|]. intros _ e' [= <-]. lia.
  - intros H. destruct (cache !! key) as [e|]; [|done].
    rewrite decide_False; [done|]. specialize (H e eq_refl). lia.
Qed.

(** C2.  After [setCachedData cache t_set key value] the entry of [key] is
    exactly [value] stamped [t_set], whatever was there before; a lookup at
    time [now] returns [value] while [now - t_set < TTL] and [null] from
    then on; and no lookup in any cache returns a value whose entry is not
    younger than the TTL. *)
Theorem cache_set_get_ttl {V} (ttl : Z)
    (cache : gmap string (Cache.CacheEntry V)) (key : string) (value : V)
    (t_set : Z) :
  Cache.setCachedData cache t_set key value !! key
    = Some {| Cache.data := value; Cache.timestamp := t_set |}
  ∧ (∀ now, now - t_set < ttl →
       Cache.getCachedData ttl (Cache.setCachedData cache t_set key value)
         now key = Some value)
  ∧ (∀ now, ¬ (now - t_set < ttl) →
       Cache.getCachedData ttl (Cache.setCachedData cache t_set key value)
         now key = None)
  ∧ (∀ now k v, Cache.getCachedData ttl cache now k = Some v →
       ∃ e, cache !! k = Some e ∧ Cache.data e = v
            ∧ now - Cache.timestamp e < ttl).
Proof.
  unfold Cache.setCachedData. split_and!.
  - apply lookup_insert_eq.
  - intros now Hlt. apply getCachedData_Some. eexists. split.
    + apply lookup_insert_eq.
    + done.
  - intros now Hge. apply getCachedData_None. intros e.
    rewrite lookup_insert_eq. intros [= <-]. simpl. lia.
  - intros now k v. apply getCachedData_Some.
Qed.

Lemma cache_set_get_ttl_witness :
  Cache.getCachedData View.CACHE_TTL
    (Cache.setCachedData ∅ 1000 "image_a" 7%nat) 300999 "image_a" = Some 7%nat
  ∧ Cache.getCachedData Retry.CACHE_TTL
      (Cache.setCachedData ∅ 1000 "image_a" 7%nat) 61000 "image_a" = None.
Proof.
  split.
  - apply (proj1 (proj2 (cache_set_get_ttl View.CACHE_TTL ∅ "image_a" 7%nat 1000))).
    unfold View.CACHE_TTL. lia.
  - apply (proj1 (proj2 (proj2
      (cache_set_get_ttl Retry.CACHE_TTL ∅ "image_a" 7%nat 1000)))).
    unfold Retry.CACHE_TTL. lia.
Defined.

(** ** The connection manager *)

Lemma in_flight_cons a l :
  in_flight (a :: l)
  = (if decide (a = Pending) then S (in_flight l) else in_flight l).
Proof. unfold in_flight. rewrite filter_cons. by case_decide. Qed.

Lemma in_flight_zero l :
  in_flight l = 0%nat ↔ ∀ p, l !! p ≠ Some Pending.
Proof.
  induction l as [|a l IH].
  - split; [intros _ p; by rewrite lookup_nil | done].
  - rewrite in_flight_cons. case_decide as Ha.
    + split; [done|]. intros H. exfalso. apply (H 0%nat). by subst.
    + rewrite IH. split.
      * intros H [|p]; simpl; [congruence | apply H].
      * intros H p. apply (H (S p)).
Qed.

Lemma in_flight_unique l :
  (∀ p q, l !! p = Some Pending → l !! q = Some Pending → p = q) →
  (in_flight l ≤ 1)%nat.
Proof.
  induction l as [|a l IH]; intros H.
  - unfold in_flight. simpl. lia.
  - rewrite in_flight_cons. case_decide as Ha.
    + subst a. assert (in_flight l = 0%nat) as ->; [|lia].
      apply in_flight_zero. intros q Hq.
      specialize (H 0%nat (S q) eq_refl Hq). lia.
    + etrans; [apply IH|lia]. intros p q Hp Hq.
      specialize (H (S p) (S q) Hp Hq). lia.
Qed.

Lemma in_flight_pending l p :
  l !! p = Some Pending → (1 ≤ in_flight l)%nat.
Proof.
  intros Hp. destruct (in_flight l) eqn:E; [|lia].
  exfalso. by apply (proj1 (in_flight_zero l) E p).
Qed.

Lemma in_flight_one l p :
  l !! p = Some Pending →
  (∀ q, l !! q = Some Pending → q = p) →
  in_flight l = 1%nat.
Proof.
  intros Hp Hu. pose proof (in_flight_pending l p Hp).
  assert (in_flight l ≤ 1)%nat; [|lia].
  apply in_flight_unique. intros a b Ha Hb.
  rewrite (Hu a Ha), (Hu b Hb). done.
Qed.

Lemma observe_settled (l : list (PromiseState JsVal)) p n res :
  (p < length l)%nat →
  ∀ r, r ∈ replicate n (Await p) → observe (<[p := Done res]> l) r = Done res.
Proof.
  intros Hp r Hr. apply elem_of_replicate in Hr as [-> _].
  simpl. by rewrite list_lookup_insert_eq.
Qed.

(** *** [view.js] *)

Lemma View_wf_init : View_wf View.init.
Proof. split; intros p; simpl; [by rewrite lookup_nil | done]. Qed.

Lemma View_wf_connectDB s : View_wf s → View_wf (snd (View.connectDB s)).
Proof.
  intros Hwf. pose proof Hwf as [H1 H2]. unfold View.connectDB.
  destruct (View.isConnected s) eqn:Hc; [done|].
  destruct (View.connectionPromise s) as [p|] eqn:Hp; [done|].
  split; simpl; intros q.
  - intros Hq. split; [done|]. f_equal.
    destruct (decide (q < length (View.attempts s))%nat) as [Hlt|Hge].
    + rewrite lookup_app_l in Hq by done. apply H1 in Hq as [_ ?]. congruence.
    + apply lookup_lt_Some in Hq. rewrite length_app in Hq. simpl in Hq. lia.
  - intros _ [= <-]. rewrite lookup_app_r by lia.
    by rewrite Nat.sub_diag.
Qed.

Lemma View_wf_settle p o s : View_wf s → View_wf (View.settle p o s).
Proof.
  intros Hwf. pose proof Hwf as [H1 H2]. unfold View.settle.
  destruct (View.attempts s !! p) as [[|r]|] eqn:Hp; [|done..].
  destruct (H1 p Hp) as [Hc Hcp].
  assert (∀ q res, <[p := Done res]> (View.attempts s) !! q = Some Pending → False)
    as Hno.
  { intros q res Hq. destruct (decide (p = q)) as [->|Hne].
    - rewrite list_lookup_insert_eq in Hq; [done|]. by eapply lookup_lt_Some.
    - rewrite list_lookup_insert_ne in Hq by done.
      apply H1 in Hq as [_ ?]. congruence. }
  destruct o; split; simpl; intros q; try done.
  - intros Hq. by apply Hno in Hq.
  - intros Hq. by apply Hno in Hq.
Qed.

Lemma View_wf_run evs s : View_wf s → View_wf (snd (View.run evs s)).
Proof.
  revert s. induction evs as [|ev evs IH]; intros s Hs; [done|].
  simpl. destruct (View.step ev s) as [rs s1] eqn:E1.
  assert (View_wf s1) as Hs1.
  { destruct ev; simpl in E1.
    - pose proof (View_wf_connectDB s Hs) as H.
      destruct (View.connectDB s); simplify_eq. done.
    - simplify_eq. by apply View_wf_settle. }
  specialize (IH s1 Hs1). destruct (View.run evs s1). done.
Qed.

Lemma View_settled_stays p res later s :
  View.attempts s !! p = Some (Done res) →
  View.attempts (snd (View.run later s)) !! p = Some (Done res).
Proof.
  revert s. induction later as [|ev later IH]; intros s Hp; [done|].
  simpl. destruct (View.step ev s) as [rs s1] eqn:E1.
  assert (View.attempts s1 !! p = Some (Done res)) as Hp1.
  { destruct ev as [|q o]; simpl in E1.
    - unfold View.connectDB in E1.
      destruct (View.isConnected s); [by simplify_eq|].
      destruct (View.connectionPromise s); simplify_eq; [done|].
      simpl. by apply lookup_app_l_Some.
    - simplify_eq. unfold View.settle.
      destruct (View.attempts s !! q) as [[|r]|] eqn:Hq; [|done..].
      assert (q ≠ p) by congruence.
      destruct o; simpl; by rewrite list_lookup_insert_ne. }
  specialize (IH s1 Hp1). by destruct (View.run later s1).
Qed.

Lemma View_calls_connected s n :
  View.isConnected s = true →
  View.run (replicate n View.Call) s = (replicate n (Return JUndefined), s).
Proof.
  intros Hc. induction n as [|n IH]; [done|].
  simpl. unfold View.connectDB. rewrite Hc. by rewrite IH.
Qed.

Lemma View_calls_joined s p n :
  View.isConnected s = false → View.connectionPromise s = Some p →
  View.run (replicate n View.Call) s = (replicate n (Await p), s).
Proof.
  intros Hc Hp. induction n as [|n IH]; [done|].
  simpl. unfold View.connectDB. rewrite Hc, Hp. by rewrite IH.
Qed.

Lemma View_calls_started s n :
  View.isConnected s = false → View.connectionPromise s = None →
  View.run (replicate (S n) View.Call) s
  = (replicate (S n) (Await (length (View.attempts s))),
     {| View.isConnected := false;
        View.connectionPromise := Some (length (View.attempts s));
        View.attempts := View.attempts s ++ [Pending] |}).
Proof.
  intros Hc Hp. simpl. unfold View.connectDB at 1. rewrite Hc, Hp.
  rewrite View_calls_joined with (p := length (View.attempts s)); done.
Qed.

Lemma View_settle_pending s p o :
  View.attempts s !! p = Some Pending →
  View.attempts (View.settle p o s)
  = <[p := Done (settled_as o)]> (View.attempts s).
Proof. intros Hp. unfold View.settle. rewrite Hp. by destruct o. Qed.

Lemma View_deduplicating : Deduplicating View_manager.
Proof.
  intros evs.
  pose proof (View_wf_run evs View.init View_wf_init) as Hwf.
  change (m_run View_manager evs (m_init View_manager))
    with (View.run evs View.init).
  destruct (View.run evs View.init) as [rs0 s].
  cbn [fst snd m_attempts m_connected m_settle View_manager] in *.
  destruct Hwf as [H1 H2]. split_and!.
  - apply in_flight_unique. intros p q Hp Hq.
    apply H1 in Hp as [_ Hp]. apply H1 in Hq as [_ Hq]. congruence.
  - intros p n Hp. destruct (H1 p Hp) as [Hc Hcp]. split.
    + by apply View_calls_joined.
    + intros o. unfold all_resolve. simpl.
      rewrite View_settle_pending by done.
      apply observe_settled. by eapply lookup_lt_Some.
  - intros n Hc. exists JUndefined. by apply View_calls_connected.
  - intros n Hc Hz.
    assert (View.connectionPromise s = None) as Hnone.
    { destruct (View.connectionPromise s) as [p|] eqn:Hp; [|done].
      exfalso. eapply in_flight_zero; eauto. }
    change (calls View_manager (S n) s)
      with (View.run (replicate (S n) View.Call) s).
    rewrite View_calls_started by done. simpl.
    split_and!; [done| |  |].
    + rewrite length_app. simpl. lia.
    + apply in_flight_one with (p := length (View.attempts s)).
      * rewrite lookup_app_r by lia. by rewrite Nat.sub_diag.
      * intros q Hq.
        destruct (decide (q < length (View.attempts s))%nat) as [Hlt|Hge].
        -- rewrite lookup_app_l in Hq by done.
           exfalso. eapply in_flight_zero; eauto.
        -- apply lookup_lt_Some in Hq. rewrite length_app in Hq.
           simpl in Hq. lia.
    + intros o. unfold all_resolve. simpl.
      rewrite View_settle_pending.
      * simpl. intros r Hr. apply elem_of_cons in Hr as [->|Hr].
        -- simpl. rewrite list_lookup_insert_eq; [done|].
           rewrite length_app. simpl. lia.
        -- revert r Hr. apply observe_settled. rewrite length_app. simpl. lia.
      * simpl. rewrite lookup_app_r by lia. by rewrite Nat.sub_diag.
  - intros p res later. apply View_settled_stays.
Qed.

(** *** [part_001] *)

Lemma Retry_wf_init : Retry_wf Retry.init.
Proof. split; intros p; simpl; [by rewrite lookup_nil | done]. Qed.

Lemma Retry_wf_connectDB s : Retry_wf s → Retry_wf (snd (Retry.connectDB s)).
Proof.
  intros Hwf. pose proof Hwf as [H1 H2]. unfold Retry.connectDB.
  destruct (Retry.isConnected s) eqn:Hc; [done|].
  destruct (Retry.connectionPromise s) as [p|] eqn:Hp; [done|].
  split; simpl; intros q.
  - intros Hq. split; [done|]. f_equal.
    destruct (decide (q < length (Retry.attempts s))%nat) as [Hlt|Hge].
    + rewrite lookup_app_l in Hq by done. apply H1 in Hq as [_ ?]. congruence.
    + apply lookup_lt_Some in Hq. rewrite length_app in Hq. simpl in Hq. lia.
  - intros _ [= <-]. rewrite lookup_app_r by lia.
    by rewrite Nat.sub_diag.
Qed.

Lemma Retry_wf_settle p o s : Retry_wf s → Retry_wf (Retry.settle p o s).
Proof.
  intros Hwf. pose proof Hwf as [H1 H2]. unfold Retry.settle.
  destruct (Retry.attempts s !! p) as [[|r]|] eqn:Hp; [|done..].
  destruct (H1 p Hp) as [Hc Hcp].
  assert (∀ q res, <[p := Done res]> (Retry.attempts s) !! q = Some Pending → False)
    as Hno.
  { intros q res Hq. destruct (decide (p = q)) as [->|Hne].
    - rewrite list_lookup_insert_eq in Hq; [done|]. by eapply lookup_lt_Some.
    - rewrite list_lookup_insert_ne in Hq by done.
      apply H1 in Hq as [_ ?]. congruence. }
  destruct o; split; simpl; intros q; try done.
  - intros Hq. by apply Hno in Hq.
  - intros Hq. by apply Hno in Hq.
Qed.

Lemma Retry_wf_fire_timer s : Retry_wf s → Retry_wf (Retry.fire_timer s).
Proof.
  intros Hwf. unfold Retry.fire_timer.
  destruct (Retry.timers s) as [|n]; [done|].
  apply Retry_wf_connectDB. exact Hwf.
Qed.

Lemma Retry_wf_run evs s : Retry_wf s → Retry_wf (snd (Retry.run evs s)).
Proof.
  revert s. induction evs as [|ev evs IH]; intros s Hs; [done|].
  simpl. destruct (Retry.step ev s) as [rs s1] eqn:E1.
  assert (Retry_wf s1) as Hs1.
  { destruct ev; simpl in E1.
    - pose proof (Retry_wf_connectDB s Hs) as H.
      destruct (Retry.connectDB s); simplify_eq. done.
    - simplify_eq. by apply Retry_wf_settle.
    - simplify_eq. by apply Retry_wf_fire_timer. }
  specialize (IH s1 Hs1). destruct (Retry.run evs s1). done.
Qed.

Lemma Retry_connectDB_keeps p res s :
  Retry.attempts s !! p = Some (Done res) →
  Retry.attempts (snd (Retry.connectDB s)) !! p = Some (Done res).
Proof.
  intros Hp. unfold Retry.connectDB.
  destruct (Retry.isConnected s); [done|].
  destruct (Retry.connectionPromise s); [done|].
  simpl. by apply lookup_app_l_Some.
Qed.

Lemma Retry_settled_stays p res later s :
  Retry.attempts s !! p = Some (Done res) →
  Retry.attempts (snd (Retry.run later s)) !! p = Some (Done res).
Proof.
  revert s. induction later as [|ev later IH]; intros s Hp; [done|].
  simpl. destruct (Retry.step ev s) as [rs s1] eqn:E1.
  assert (Retry.attempts s1 !! p = Some (Done res)) as Hp1.
  { destruct ev as [|q o|]; simpl in E1.
    - pose proof (Retry_connectDB_keeps p res s Hp) as H.
      destruct (Retry.connectDB s). by simplify_eq.
    - simplify_eq. unfold Retry.settle.
      destruct (Retry.attempts s !! q) as [[|r]|] eqn:Hq; [|done..].
      assert (q ≠ p) by congruence.
      destruct o; simpl; by rewrite list_lookup_insert_ne.
    - simplify_eq. unfold Retry.fire_timer.
      destruct (Retry.timers s); [done|]. by apply Retry_connectDB_keeps. }
  specialize (IH s1 Hp1). by destruct (Retry.run later s1).
Qed.

Lemma Retry_calls_connected s n :
  Retry.isConnected s = true →
  Retry.run (replicate n Retry.Call) s = (replicate n (Return JTrue), s).
Proof.
  intros Hc. induction n as [|n IH]; [done|].
  simpl. unfold Retry.connectDB. rewrite Hc. by rewrite IH.
Qed.

Lemma Retry_calls_joined s p n :
  Retry.isConnected s = false → Retry.connectionPromise s = Some p →
  Retry.run (replicate n Retry.Call) s = (replicate n (Await p), s).
Proof.
  intros Hc Hp. induction n as [|n IH]; [done|].
  simpl. unfold Retry.connectDB. rewrite Hc, Hp. by rewrite IH.
Qed.

Lemma Retry_calls_started s n :
  Retry.isConnected s = false → Retry.connectionPromise s = None →
  Retry.run (replicate (S n) Retry.Call) s
  = (replicate (S n) (Await (length (Retry.attempts s))),
     {| Retry.isConnected := false;
        Retry.connectionPromise := Some (length (Retry.attempts s));
        Retry.connectionAttempts := S (Retry.connectionAttempts s);
        Retry.attempts := Retry.attempts s ++ [Pending];
        Retry.timers := Retry.timers s |}).
Proof.
  intros Hc Hp. simpl. unfold Retry.connectDB at 1. rewrite Hc, Hp.
  rewrite Retry_calls_joined with (p := length (Retry.attempts s)); done.
Qed.

Lemma Retry_settle_pending s p o :
  Retry.attempts s !! p = Some Pending →
  Retry.attempts (Retry.settle p o s)
  = <[p := Done (settled_as o)]> (Retry.attempts s).
Proof. intros Hp. unfold Retry.settle. rewrite Hp. by destruct o. Qed.

Lemma Retry_deduplicating : Deduplicating Retry_manager.
Proof.
  intros evs.
  pose proof (Retry_wf_run evs Retry.init Retry_wf_init) as Hwf.
  change (m_run Retry_manager evs (m_init Retry_manager))
    with (Retry.run evs Retry.init).
  destruct (Retry.run evs Retry.init) as [rs0 s].
  cbn [fst snd m_attempts m_connected m_settle Retry_manager] in *.
  destruct Hwf as [H1 H2]. split_and!.
  - apply in_flight_unique. intros p q Hp Hq.
    apply H1 in Hp as [_ Hp]. apply H1 in Hq as [_ Hq]. congruence.
  - intros p n Hp. destruct (H1 p Hp) as [Hc Hcp]. split.
    + by apply Retry_calls_joined.
    + intros o. unfold all_resolve. simpl.
      rewrite Retry_settle_pending by done.
      apply observe_settled. by eapply lookup_lt_Some.
  - intros n Hc. exists JTrue. by apply Retry_calls_connected.
  - intros n Hc Hz.
    assert (Retry.connectionPromise s = None) as Hnone.
    { destruct (Retry.connectionPromise s) as [p|] eqn:Hp; [|done].
      exfalso. eapply in_flight_zero; eauto. }
    change (calls Retry_manager (S n) s)
      with (Retry.run (replicate (S n) Retry.Call) s).
    rewrite Retry_calls_started by done. simpl.
    split_and!; [done| |  |].
    + rewrite length_app. simpl. lia.
    + apply in_flight_one with (p := length (Retry.attempts s)).
      * rewrite lookup_app_r by lia. by rewrite Nat.sub_diag.
      * intros q Hq.
        destruct (decide (q < length (Retry.attempts s))%nat) as [Hlt|Hge].
        -- rewrite lookup_app_l in Hq by done.
           exfalso. eapply in_flight_zero; eauto.
        -- apply lookup_lt_Some in Hq. rewrite length_app in Hq.
           simpl in Hq. lia.
    + intros o. unfold all_resolve. simpl.
      rewrite Retry_settle_pending.
      * simpl. intros r Hr. apply elem_of_cons in Hr as [->|Hr].
        -- simpl. rewrite list_lookup_insert_eq; [done|].
           rewrite length_app. simpl. lia.
        -- revert r Hr. apply observe_settled. rewrite length_app. simpl. lia.
      * simpl. rewrite lookup_app_r by lia. by rewrite Nat.sub_diag.
  - intros p res later. apply Retry_settled_stays.
Qed.

(** Some runs.  Three callers share one attempt and its failure, and the
    next call starts the second attempt. *)
Example View_three_callers_one_attempt :
  View.run [View.Call; View.Call; View.Call;
            View.Settle 0 (Failed (MkError "timeout")); View.Call] View.init
  = ([Await 0; Await 0; Await 0; Await 1]%nat,
     {| View.isConnected := false;
        View.connectionPromise := Some 1%nat;
        View.attempts := [Done (Rejected (MkError "timeout")); Pending] |}).
Proof. reflexivity. Qed.

(** In [part_001] the retry timer and a caller share the second attempt. *)
Example Retry_timer_and_caller_share :
  Retry.run [Retry.Call; Retry.Settle 0 (Failed (MkError "timeout"));
             Retry.Timer; Retry.Call; Retry.Settle 1 Connected; Retry.Call]
    Retry.init
  = ([Await 0; Await 1; Return JTrue]%nat,
     {| Retry.isConnected := true;
        Retry.connectionPromise := Some 1%nat;
        Retry.connectionAttempts := 2;
        Retry.attempts := [Done (Rejected (MkError "timeout"));
                           Done (Fulfilled JTrue)];
        Retry.timers := 0 |}).
Proof. reflexivity. Qed.

(** [part_000] keeps no marker: two calls before the first settles are two
    attempts. *)
Example Plain_two_calls_two_attempts :
  let '(r1, s1) := Plain.connectDB Plain.init in
  let '(r2, s2) := Plain.connectDB s1 in
  r1 = Await 0 ∧ r2 = Await 1 ∧ in_flight (Plain.attempts s2) = 2%nat.
Proof. simpl. split_and!; reflexivity. Qed.

(** C1.  In [view.js] and in [part_001], in every state the process can
    reach: at most one connection attempt is in flight; a call of
    [connectDB()] made while an attempt is in flight returns that attempt
    and starts none; [n] calls made while disconnected start exactly one
    attempt and all of them resolve as that attempt settles ([true] for
    all, or the same error for all), for good; a call made while connected
    completes at once, starting nothing. *)
Theorem connectDB_deduplicates :
  Deduplicating View_manager ∧ Deduplicating Retry_manager.
Proof. split; [apply View_deduplicating | apply Retry_deduplicating]. Qed.

(** *** Failure of an attempt *)

(** In [view.js] a failed attempt leaves the manager disconnected with no
    recorded promise, every caller that holds the attempt sees the error,
    and the next call starts a new attempt. *)
Lemma View_failure_propagates evs p error n :
  let s := snd (View.run evs View.init) in
  View.attempts s !! p = Some Pending →
  let s' := View.settle p (Failed error) s in
  View.isConnected s' = false
  ∧ View.connectionPromise s' = None
  ∧ in_flight (View.attempts s') = 0%nat
  ∧ all_resolve View_manager (fst (View.run (replicate n View.Call) s)) s'
      (Rejected error)
  ∧ fst (View.connectDB s') = Await (length (View.attempts s')).
Proof.
  intros s Hp s'.
  pose proof (View_wf_run evs View.init View_wf_init) as [H1 H2].
  fold s in H1, H2. destruct (H1 p Hp) as [Hc Hcp].
  assert (View.attempts s' = <[p := Done (Rejected error)]> (View.attempts s))
    as Hatt by (subst s'; by rewrite View_settle_pending).
  assert (View.isConnected s' = false ∧ View.connectionPromise s' = None)
    as [Hc' Hcp'].
  { subst s'. unfold View.settle. by rewrite Hp. }
  split_and!; [done|done| | |].
  - apply in_flight_zero. intros q Hq. rewrite Hatt in Hq.
    destruct (decide (p = q)) as [->|Hne].
    + rewrite list_lookup_insert_eq in Hq; [done|]. by eapply lookup_lt_Some.
    + rewrite list_lookup_insert_ne in Hq by done.
      apply H1 in Hq as [_ ?]. congruence.
  - rewrite View_calls_joined with (p := p) by done.
    unfold all_resolve. cbn [m_attempts View_manager fst]. rewrite Hatt.
    apply observe_settled. by eapply lookup_lt_Some.
  - unfold View.connectDB. by rewrite Hc', Hcp'.
Qed.

(** The same for [part_001]. *)
Lemma Retry_failure_propagates evs p error n :
  let s := snd (Retry.run evs Retry.init) in
  Retry.attempts s !! p = Some Pending →
  let s' := Retry.settle p (Failed error) s in
  Retry.isConnected s' = false
  ∧ Retry.connectionPromise s' = None
  ∧ in_flight (Retry.attempts s') = 0%nat
  ∧ all_resolve Retry_manager (fst (Retry.run (replicate n Retry.Call) s)) s'
      (Rejected error)
  ∧ fst (Retry.connectDB s') = Await (length (Retry.attempts s')).
Proof.
  intros s Hp s'.
  pose proof (Retry_wf_run evs Retry.init Retry_wf_init) as [H1 H2].
  fold s in H1, H2. destruct (H1 p Hp) as [Hc Hcp].
  assert (Retry.attempts s' = <[p := Done (Rejected error)]> (Retry.attempts s))
    as Hatt by (subst s'; by rewrite Retry_settle_pending).
  assert (Retry.isConnected s' = false ∧ Retry.connectionPromise s' = None)
    as [Hc' Hcp'].
  { subst s'. unfold Retry.settle. by rewrite Hp. }
  split_and!; [done|done| | |].
  - apply in_flight_zero. intros q Hq. rewrite Hatt in Hq.
    destruct (decide (p = q)) as [->|Hne].
    + rewrite list_lookup_insert_eq in Hq; [done|]. by eapply lookup_lt_Some.
    + rewrite list_lookup_insert_ne in Hq by done.
      apply H1 in Hq as [_ ?]. congruence.
  - rewrite Retry_calls_joined with (p := p) by done.
    unfold all_resolve. cbn [m_attempts Retry_manager fst]. rewrite Hatt.
    apply observe_settled. by eapply lookup_lt_Some.
  - unfold Retry.connectDB. by rewrite Hc', Hcp'.
Qed.

(** C3, on [part_000].  A first call of [connectDB()] whose
    [mongoose.connect] is rejected with [error]: the manager stays
    disconnected, the error goes to [console.error] only, and the caller's
    promise is fulfilled with [undefined], not rejected with [error]. *)
Theorem Plain_connectDB_swallows_failure (error : JsError) :
  let '(r, s1) := Plain.connectDB Plain.init in
  let s2 := Plain.settle 0 (Failed error) s1 in
  r = Await 0
  ∧ Plain.isConnected s2 = false
  ∧ Plain.logged s2 = [error]
  ∧ observe (Plain.attempts s2) r = Done (Fulfilled JUndefined)
  ∧ observe (Plain.attempts s2) r ≠ Done (Rejected error)
  ∧ fst (Plain.await_connectDB (Failed error) Plain.init)
    = Done (Fulfilled JUndefined).
Proof. simpl. split_and!; done. Qed.

Lemma connectDB_deduplicates_witness :
  fst (View.run (replicate 3 View.Call) View.init) = replicate 3 (Await 0)
  ∧ length (View.attempts (snd (View.run (replicate 3 View.Call) View.init)))
    = 1%nat.
Proof.
  destruct (proj1 connectDB_deduplicates []) as (_ & _ & _ & H & _).
  destruct (H 2%nat eq_refl eq_refl) as (H1 & H2 & _).
  split; [exact H1 | exact H2].
Defined.

(** ** The messaging session controller *)

(** *** The ['messages.upsert'] listener *)

Lemma js_or_string_caption (a : option string) :
  js_or_string a "" = default "" a.
Proof. destruct a as [s|]; simpl; [|done]. by case_decide. Qed.

Lemma upsert_not_image sock m rest db :
  first_type m ≠ Some "imageMessage" →
  Session.messages_upsert sock (m :: rest) db = (Fulfilled (), ([], db)).
Proof.
  unfold first_type, Session.messages_upsert. simpl.
  destruct (Session.message m) as [obj|]; simpl; [|done].
  intros H. by rewrite decide_False.
Qed.


(** What the listener does with an image whose download succeeds: it
    builds one document and hands it to [save]; the rest depends on how
    [save] ends. *)
Lemma upsert_image sock m rest db c others buffer :
  Session.message m = Some (("imageMessage", c) :: others) →
  Session.downloadMediaMessage sock m = Fulfilled buffer →
  ∃ doc,
    Model.messageId doc = Session.id (Session.key m)
    ∧ Model.sender doc = Session.remoteJid (Session.key m)
    ∧ Model.imageData doc = buffer
    ∧ Model.contentType doc = js_or_string (Session.mimetype c) "image/jpeg"
    ∧ Model.caption doc = default "" (Session.caption c)
    ∧ Session.messages_upsert sock (m :: rest) db
      = match Model.save (Session.save_fault sock) doc db with
        | (Fulfilled _, db') => (Fulfilled (), ([Session.ESave doc], db'))
        | (Rejected _, db') =>
            (Session.sendMessage sock (Session.remoteJid (Session.key m))
               Session.error_text,
             ([Session.ESave doc;
               Session.ESend (Session.remoteJid (Session.key m)) Session.error_text],
              db'))
        end.
Proof.
  intros Hm Hd.
  exists {| Model._id := Session.ObjectId sock;
            Model.messageId := Session.id (Session.key m);
            Model.sender := Session.remoteJid (Session.key m);
            Model.timestamp := Session.Date_now sock;
            Model.imageData := buffer;
            Model.contentType := js_or_string (Session.mimetype c) "image/jpeg";
            Model.caption := js_or_string (Session.caption c) "" |}.
  split_and!; try done.
  - simpl. apply js_or_string_caption.
  - unfold Session.messages_upsert. simpl. rewrite Hm. simpl.
    unfold Session.try_catch, Session.bind, Session.await.
    rewrite Hd. simpl. unfold Session.image_save.
    match goal with |- context [Model.save ?f ?d ?b] =>
      destruct (Model.save f d b) as [[[]|e] db'] end; reflexivity.
Qed.



(** C5, as stated, fails.  [image_m1] arrives a second time, so [save]
    refuses the duplicate identifier; the notification is sent, and its
    failure is the outcome of the listener: the rejection leaves the
    handler. *)
Lemma notification_failure_leaves_handler :
  Model.save None stored_m1 [stored_m1] = (Rejected Model.duplicate_key, [stored_m1])
  ∧ Session.ESend "s1" Session.error_text
      ∈ effects (Session.messages_upsert sock_send_fails [image_m1] [stored_m1])
  ∧ outcome (Session.messages_upsert sock_send_fails [image_m1] [stored_m1])
    = Rejected send_failure
  ∧ outcome (Session.messages_upsert sock_send_fails [image_m1] [stored_m1])
    ≠ Fulfilled ().
Proof.
  split_and!.
  - reflexivity.
  - vm_compute. apply list_elem_of_further, list_elem_of_here.
  - reflexivity.
  - vm_compute. discriminate.
Qed.

(** C5, amended.  When the download of an image succeeds and [save] fails
    (a fault of the store, or an identifier that is already stored), the
    listener has handed one document to [save], sends the error text once,
    to the sender of the message, and leaves the collection as it was.  Its
    outcome is the outcome of that send: it ends normally when the send
    succeeds, and a failed send is not caught. *)
Theorem upsert_notifies_on_save_failure (sock : Session.Env)
    (m : Session.WAMessage) (rest : list Session.WAMessage)
    (db : list Model.Image) (c : Session.MessageContent)
    (others : list (string * Session.MessageContent)) (buffer : Buffer) :
  Session.message m = Some (("imageMessage", c) :: others) →
  Session.downloadMediaMessage sock m = Fulfilled buffer →
  is_Some (Session.save_fault sock)
    ∨ Session.id (Session.key m) ∈ Model.messageId <$> db →
  ∃ doc,
    effects (Session.messages_upsert sock (m :: rest) db)
      = [Session.ESave doc;
         Session.ESend (Session.remoteJid (Session.key m)) Session.error_text]
    ∧ collection (Session.messages_upsert sock (m :: rest) db) = db
    ∧ outcome (Session.messages_upsert sock (m :: rest) db)
      = Session.sendMessage sock (Session.remoteJid (Session.key m))
          Session.error_text
    ∧ (Session.sendMessage sock (Session.remoteJid (Session.key m))
         Session.error_text = Fulfilled () →
       outcome (Session.messages_upsert sock (m :: rest) db) = Fulfilled ()).
Proof.
  intros Hm Hd Hfail.
  destruct (upsert_image sock m rest db c others buffer Hm Hd)
    as (doc & Hid & _ & _ & _ & _ & Hrun).
  exists doc. rewrite Hrun.
  assert (∃ e, Model.save (Session.save_fault sock) doc db = (Rejected e, db))
    as [e ->].
  { unfold Model.save. destruct Hfail as [[e ->]|Hdup]; [by eexists|].
    destruct (Session.save_fault sock) as [e|]; [by eexists|].
    rewrite Hid, decide_True by done. by eexists. }
  unfold effects, collection, outcome. simpl. split_and!; done.
Qed.

Lemma upsert_notifies_on_save_failure_witness :
  effects (Session.messages_upsert sock_ok [image_m1] [stored_m1])
  = [Session.ESave stored_m1; Session.ESend "s1" Session.error_text]
  ∧ outcome (Session.messages_upsert sock_ok [image_m1] [stored_m1])
    = Fulfilled ().
Proof.
  destruct (upsert_notifies_on_save_failure sock_ok image_m1 [] [stored_m1]
              _ _ _ eq_refl eq_refl)
    as (doc & _ & _ & _ & H).
  - right. vm_compute. apply list_elem_of_here.
  - split; [reflexivity | exact (H eq_refl)].
Defined.

(** C10.  The listener reads [messages[0]] and nothing else: the rest of
    the batch has no influence on what it does, every document it hands to
    [save] and every text it sends belong to the first message, and when
    the first message is not an image nothing is saved or sent, whatever
    follows it. *)
Theorem upsert_reads_first_message_only (sock : Session.Env)
    (m : Session.WAMessage) (rest : list Session.WAMessage)
    (db : list Model.Image) :
  Session.messages_upsert sock (m :: rest) db
    = Session.messages_upsert sock [m] db
  ∧ (∀ doc, Session.ESave doc
              ∈ effects (Session.messages_upsert sock (m :: rest) db) →
       Model.messageId doc = Session.id (Session.key m))
  ∧ (∀ jid text, Session.ESend jid text
                   ∈ effects (Session.messages_upsert sock (m :: rest) db) →
       jid = Session.remoteJid (Session.key m))
  ∧ (first_type m ≠ Some "imageMessage" →
       effects (Session.messages_upsert sock (m :: rest) db) = []
       ∧ collection (Session.messages_upsert sock (m :: rest) db) = db).
Proof.
  split; [reflexivity|].
  assert (∀ eff, eff ∈ effects (Session.messages_upsert sock (m :: rest) db) →
            (∃ doc, eff = Session.ESave doc
                    ∧ Model.messageId doc = Session.id (Session.key m))
            ∨ eff = Session.ESend (Session.remoteJid (Session.key m))
                      Session.error_text) as Heff.
  { intros eff. unfold effects, Session.messages_upsert. simpl.
    destruct (Session.message m) as [obj|]; simpl; [|by intros ?%elem_of_nil].
    case_decide as Hty; simpl; [|by intros ?%elem_of_nil].
    unfold Session.try_catch, Session.bind, Session.await.
    destruct (Session.downloadMediaMessage sock m) as [buffer|e]; simpl.
    - destruct (mbind _ _) as [c|]; simpl.
      + unfold Session.image_save.
        match goal with |- context [Model.save ?f ?d ?b] =>
          destruct (Model.save f d b) as [[[]|e] db'] end; simpl;
          rewrite ?elem_of_cons, ?elem_of_nil;
          intros H; repeat destruct H as [H|H]; subst; eauto; done.
      + rewrite ?elem_of_cons, ?elem_of_nil.
        intros H; repeat destruct H as [H|H]; subst; eauto; done.
    - rewrite ?elem_of_cons, ?elem_of_nil.
      intros H; repeat destruct H as [H|H]; subst; eauto; done. }
  split_and!.
  - intros doc Hin. apply Heff in Hin as [(d & Hd & H)|Hd].
    + by injection Hd as ->.
    + discriminate Hd.
  - intros jid text Hin. apply Heff in Hin as [(d & Hd & H)|Hd].
    + discriminate Hd.
    + by injection Hd as -> _.
  - intros Hne. by rewrite upsert_not_image.
Qed.

Lemma upsert_reads_first_message_only_witness :
  effects (Session.messages_upsert sock_ok [text_m2; image_m1; image_m1] []) = []
  ∧ collection (Session.messages_upsert sock_ok [text_m2; image_m1; image_m1] [])
    = [].
Proof.
  apply (proj2 (proj2 (proj2
    (upsert_reads_first_message_only sock_ok text_m2 [image_m1; image_m1] [])))).
  vm_compute. discriminate.
Defined.

(** *** The ['connection.update'] listener *)

Lemma connection_update_logged_out loggedOut u :
  Session.connection u = Some "close" →
  Session.statusCode u = Some loggedOut →
  Session.connection_update loggedOut u
  = [Session.ConsoleLog "Logged out. Scan QR again."].
Proof.
  intros Hc Hs. unfold Session.connection_update.
  rewrite decide_True by done. rewrite bool_decide_false; [done|].
  intros Hne. by apply Hne.
Qed.

Lemma connection_update_recoverable loggedOut u :
  Session.connection u = Some "close" →
  Session.statusCode u ≠ Some loggedOut →
  Session.connection_update loggedOut u
  = [Session.ConsoleLog "Reconnecting..."; Session.ConnectToWhatsApp].
Proof.
  intros Hc Hs. unfold Session.connection_update.
  rewrite decide_True by done. by rewrite bool_decide_true.
Qed.

Lemma connection_update_not_close loggedOut u :
  Session.connection u ≠ Some "close" →
  Session.ConnectToWhatsApp ∉ Session.connection_update loggedOut u.
Proof.
  intros Hc. unfold Session.connection_update.
  rewrite decide_False by done.
  case_decide; rewrite ?elem_of_cons, elem_of_nil; intros Hin.
  - destruct Hin as [Hin|Hin]; [discriminate Hin | done].
  - done.
Qed.

Lemma perform_logs c acts :
  Session.ConnectToWhatsApp ∉ acts → foldl Session.perform c acts = c.
Proof.
  revert c. induction acts as [|a acts IH]; intros c Hn; [done|].
  simpl. destruct a as [text|].
  - apply IH. intros Hin. apply Hn. by apply list_elem_of_further.
  - exfalso. apply Hn. apply list_elem_of_here.
Qed.

Lemma filter_other_singleton (k : nat) :
  filter (λ j : nat, j ≠ k) [k] = [].
Proof. rewrite filter_cons. by rewrite decide_False by (intros H; by apply H). Qed.

Lemma Controller_inv_start : Controller_inv Session.start.
Proof. right. exists 0%nat. split; [done | simpl; lia]. Qed.

Lemma Controller_inv_deliver loggedOut sock u c :
  Controller_inv c → Controller_inv (Session.deliver loggedOut sock u c).
Proof.
  intros Hinv. unfold Session.deliver.
  case_decide as Hin; [|done].
  destruct Hinv as [Hnil|(k & Hk & Hlt)].
  { rewrite Hnil in Hin. by apply elem_of_nil in Hin. }
  rewrite Hk in Hin. apply list_elem_of_singleton in Hin as ->.
  case_decide as Hclose.
  - rewrite Hk, filter_other_singleton.
    destruct (decide (Session.statusCode u = Some loggedOut)) as [Hs|Hs].
    + rewrite connection_update_logged_out by done. simpl. by left.
    + rewrite connection_update_recoverable by done. simpl.
      right. exists (Session.created c). split; [done | simpl; lia].
  - rewrite perform_logs by (by apply connection_update_not_close).
    right. eauto.
Qed.

Lemma Controller_inv_deliver_all loggedOut evs c :
  Controller_inv c → Controller_inv (Session.deliver_all loggedOut evs c).
Proof.
  revert c. induction evs as [|[sock u] evs IH]; intros c Hc; [done|].
  simpl. apply IH. by apply Controller_inv_deliver.
Qed.

Lemma deliver_all_halted loggedOut evs c :
  Session.live c = [] → Session.deliver_all loggedOut evs c = c.
Proof.
  intros Hnil. induction evs as [|[sock u] evs IH]; [done|].
  simpl. unfold Session.deliver at 1.
  rewrite decide_False; [done|]. rewrite Hnil. apply not_elem_of_nil.
Qed.

(** C6.  Whatever has happened since the start ([history]), when the
    registered socket reports a closure:
    - with the status code of "logged out", the listener asks for no
      reconnection, no socket remains registered, and no later event
      changes the controller: the number of connection attempts stays what
      it was;
    - with any other status code, or none, the listener calls
      [connectToWhatsApp()] in the same turn: one more attempt, whose
      socket is the registered one. *)
Theorem close_logged_out_halts_otherwise_reconnects (loggedOut : Z)
    (history : list (nat * Session.ConnectionUpdate)) (sock : nat)
    (code : option Z) :
  let c := Session.deliver_all loggedOut history Session.start in
  sock ∈ Session.live c →
  (code = Some loggedOut →
     (Session.ConnectToWhatsApp
        ∉ Session.connection_update loggedOut (closed_with code))
     ∧ Session.live (Session.deliver loggedOut sock (closed_with code) c) = []
     ∧ ∀ later,
         Session.created
           (Session.deliver_all loggedOut later
              (Session.deliver loggedOut sock (closed_with code) c))
         = Session.created c)
  ∧ (code ≠ Some loggedOut →
     Session.connection_update loggedOut (closed_with code)
       = [Session.ConsoleLog "Reconnecting..."; Session.ConnectToWhatsApp]
     ∧ Session.deliver loggedOut sock (closed_with code) c
       = {| Session.live := [Session.created c];
            Session.created := S (Session.created c) |}).
Proof.
  intros c Hin.
  pose proof (Controller_inv_deliver_all loggedOut history Session.start
                Controller_inv_start) as Hinv.
  fold c in Hinv. destruct Hinv as [Hnil|(k & Hk & Hlt)].
  { rewrite Hnil in Hin. by apply elem_of_nil in Hin. }
  assert (sock = k) as ->.
  { rewrite Hk in Hin. by apply list_elem_of_singleton in Hin. }
  assert (Session.deliver loggedOut k (closed_with code) c
          = foldl Session.perform
              {| Session.live := []; Session.created := Session.created c |}
              (Session.connection_update loggedOut (closed_with code))) as Hd.
  { unfold Session.deliver. rewrite decide_True by done.
    rewrite decide_True by done. by rewrite Hk, filter_other_singleton. }
  split.
  - intros Hcode. rewrite Hd.
    rewrite connection_update_logged_out by done. simpl. split_and!.
    + rewrite elem_of_cons, elem_of_nil. intros [H|H]; [discriminate H|done].
    + done.
    + intros later. by rewrite deliver_all_halted.
  - intros Hcode. rewrite Hd.
    rewrite connection_update_recoverable by done. done.
Qed.

Lemma close_logged_out_halts_otherwise_reconnects_witness :
  Session.created
    (Session.deliver_all 401
       [(0%nat, closed_with (Some 428)); (1%nat, closed_with None)]
       (Session.deliver 401 0 (closed_with (Some 401)) Session.start))
  = 1%nat
  ∧ Session.deliver 401 0 (closed_with (Some 428)) Session.start
    = {| Session.live := [1%nat]; Session.created := 2 |}.
Proof.
  pose proof (close_logged_out_halts_otherwise_reconnects 401 [] 0) as H.
  split.
  - destruct (H (Some 401)) as [H1 _]; [apply list_elem_of_here|].
    destruct (H1 eq_refl) as (_ & _ & H3). apply H3.
  - destruct (H (Some 428)) as [_ H2]; [apply list_elem_of_here|].
    apply H2. discriminate.
Defined.

(** ** The image query service *)

Lemma image_key_not_all (id : string) : "image_" +:+ id ≠ "all_images".
Proof. simpl. discriminate. Qed.

Lemma image_key_not_page (id : string) (page : Z) :
  "image_" +:+ id ≠ Web.page_key page.
Proof. unfold Web.page_key. cbn [String.append]. discriminate. Qed.

Lemma ObjectId_is_cast (id : string) :
  Model.is_ObjectId id = true → Model.cast_fails id = false.
Proof. unfold Model.cast_fails. by intros ->. Qed.

Lemma findById_Some db id doc :
  find (λ d, bool_decide (Model._id d = id)) db = Some doc →
  doc ∈ db ∧ Model._id doc = id.
Proof.
  intros H. apply find_some in H as [Hin Hb].
  split; [by apply list_elem_of_In | by apply bool_decide_eq_true in Hb].
Qed.

Lemma findById_None db id :
  find (λ d, bool_decide (Model._id d = id)) db = None →
  ∀ doc, doc ∈ db → Model._id doc ≠ id.
Proof.
  intros H doc Hin. apply list_elem_of_In in Hin.
  pose proof (find_none _ _ H doc Hin) as Hb. simpl in Hb.
  by apply bool_decide_eq_false in Hb.
Qed.


Section handlers.
Context {Conn : Type}.
Variable CACHE_TTL : Z.
Variable await_connectDB : Outcome → Conn → PromiseState JsVal * Conn.
Variable lean : bool.

Local Abbreviation get_image := (Web.get_image CACHE_TTL await_connectDB lean).
Local Abbreviation list_page := (Web.list_page CACHE_TTL await_connectDB).
Local Abbreviation handle := (Web.handle CACHE_TTL await_connectDB lean).
Local Abbreviation reachable :=
  (Web.reachable CACHE_TTL await_connectDB lean).

(** After a miss, with the connection up and the query answered, the
    handler continues with the answer. *)
Lemma after_miss_answered {A} env (st : Web.Server Conn) (a : A) on_error k :
  connects await_connectDB env st →
  Web.after_miss await_connectDB env st (Fulfilled a) on_error k
  = k a {| Web.conn := snd (await_connectDB (Web.connect_outcome env) (Web.conn st));
           Web.cache := Web.cache st |}.
Proof.
  intros [v Hv]. unfold Web.after_miss.
  destruct (await_connectDB _ _) as [r conn']. simpl in *. by subst r.
Qed.

(** Whatever happens after a miss, the cache is the old one or what the
    continuation makes of the old one. *)
Lemma after_miss_cache {A} env (st : Web.Server Conn) (q : Settled A)
    on_error k :
  Web.cache (snd (Web.after_miss await_connectDB env st q on_error k))
    = Web.cache st
  ∨ ∃ a st', q = Fulfilled a ∧ Web.cache st' = Web.cache st
             ∧ Web.after_miss await_connectDB env st q on_error k = k a st'.
Proof.
  unfold Web.after_miss.
  destruct (await_connectDB _ _) as [[|[v|e]] conn']; simpl.
  - by left.
  - destruct q as [a|e]; [|by left]. right.
    by exists a, {| Web.conn := conn'; Web.cache := Web.cache st |}.
  - by left.
Qed.

Lemma handle_cache env db req (st : Web.Server Conn) :
  let st' := snd (handle env db req st) in
  Web.cache st' = Web.cache st
  ∨ (∃ id doc, doc ∈ db ∧ Model._id doc = id
       ∧ Model.cast_fails id = false
       ∧ Web.cache st'
         = Cache.setCachedData (Web.cache st) (Web.t_write env)
             ("image_" +:+ id)
             (Web.CImage (Model.contentType doc) (Model.imageData doc)))
  ∨ (∃ v, Web.cache st'
          = Cache.setCachedData (Web.cache st) (Web.t_write env) "all_images" v)
  ∨ (∃ page v, Web.cache st'
               = Cache.setCachedData (Web.cache st) (Web.t_write env)
                   (Web.page_key page) v).
Proof.
  destruct req as [id| |page limit|]; simpl.
  - unfold Web.get_image.
    destruct (Cache.getCachedData _ _ _ _); [by left|].
    match goal with |- context [Web.after_miss ?w ?e ?s ?q ?oe ?k] =>
      destruct (after_miss_cache e s q oe k) as [H|(a & st' & Hq & Hc & ->)] end;
      [by left|].
    destruct a as [image|]; simpl; [|by left].
    right; left. unfold Model.findById in Hq.
    destruct (Web.query_fault env); [done|].
    destruct (Model.cast_fails id) eqn:Hcast; [done|]. injection Hq as Hq.
    apply findById_Some in Hq as [Hin Hid].
    exists id, image. by rewrite Hc.
  - unfold Web.list_all.
    destruct (Cache.getCachedData _ _ _ _); [by left|].
    match goal with |- context [Web.after_miss ?w ?e ?s ?q ?oe ?k] =>
      destruct (after_miss_cache e s q oe k) as [H|(a & st' & Hq & Hc & ->)] end;
      [by left|].
    simpl. right; right; left. rewrite Hc. eauto.
  - unfold Web.list_page.
    destruct (Cache.getCachedData _ _ _ _); [by left|].
    match goal with |- context [Web.after_miss ?w ?e ?s ?q ?oe ?k] =>
      destruct (after_miss_cache e s q oe k) as [H|(a & st' & Hq & Hc & ->)] end;
      [by left|].
    simpl. right; right; right. rewrite Hc. eauto.
  - unfold Web.root.
    destruct (Cache.getCachedData _ _ _ _) as [[]|]; [by left..|].
    match goal with |- context [Web.after_miss ?w ?e ?s ?q ?oe ?k] =>
      destruct (after_miss_cache e s q oe k) as [H|(a & st' & Hq & Hc & ->)] end;
      [by left|].
    simpl. right; right; left. rewrite Hc. eauto.
Qed.

Lemma Coherent_reachable db (st : Web.Server Conn) :
  reachable db st → Coherent db (Web.cache st).
Proof.
  induction 1 as [db conn0|db st doc Hr IH|db st env req Hr IH].
  - intros id e. simpl. by rewrite lookup_empty.
  - intros id e He. destruct (IH id e He) as (d & Hin & Hd).
    exists d. split; [|done]. apply elem_of_app. by left.
  - intros id e.
    destruct (handle_cache env db req st)
      as [->|[(id' & doc & Hin & Hid & _ & ->)|[(v & ->)|(page & v & ->)]]];
      unfold Cache.setCachedData.
    + apply IH.
    + destruct (decide (id' = id)) as [->|Hne].
      * rewrite lookup_insert_eq. intros [= <-]. exists doc. done.
      * rewrite lookup_insert_ne; [apply IH|].
        intros Heq. apply Hne. by apply (inj (String.append "image_")).
    + rewrite lookup_insert_ne; [apply IH|].
      intros Heq. by apply (image_key_not_all id).
    + rewrite lookup_insert_ne; [apply IH|].
      intros Heq. by apply (image_key_not_page id page).
Qed.

(** Only identifiers that [findById] could cast have a cached image. *)
Lemma cached_ids_cast db (st : Web.Server Conn) :
  reachable db st →
  ∀ id, is_Some (Web.cache st !! ("image_" +:+ id)) →
        Model.cast_fails id = false.
Proof.
  induction 1 as [db conn0|db st doc Hr IH|db st env req Hr IH].
  - intros id [e He]. simpl in He. by rewrite lookup_empty in He.
  - exact IH.
  - intros id.
    destruct (handle_cache env db req st)
      as [->|[(id' & doc & _ & _ & Hcast & ->)|[(v & ->)|(page & v & ->)]]];
      unfold Cache.setCachedData.
    + apply IH.
    + destruct (decide (id' = id)) as [->|Hne]; [done|].
      rewrite lookup_insert_ne; [apply IH|].
      intros Heq. apply Hne. by apply (inj (String.append "image_")).
    + rewrite lookup_insert_ne; [apply IH|].
      intros Heq. by apply (image_key_not_all id).
    + rewrite lookup_insert_ne; [apply IH|].
      intros Heq. by apply (image_key_not_page id page).
Qed.

(** After a miss, with the connection up and the query rejected, the
    [catch] block answers and the cache stays as it was. *)
Lemma after_miss_rejected {A} env (st : Web.Server Conn) (e : JsError)
    on_error (k : A → Web.Server Conn → option Web.Response * Web.Server Conn) :
  connects await_connectDB env st →
  Web.after_miss await_connectDB env st (Rejected e) on_error k
  = (Some on_error,
     {| Web.conn := snd (await_connectDB (Web.connect_outcome env) (Web.conn st));
        Web.cache := Web.cache st |}).
Proof.
  intros [v Hv]. unfold Web.after_miss.
  destruct (await_connectDB _ _) as [r conn']. simpl in *. by subst r.
Qed.

End handlers.




(** *** Pagination ([part_001]) *)

Global Instance newer_first_trans : Transitive Model.newer_first.
Proof. unfold Model.newer_first. intros a b c. lia. Qed.

Global Instance newer_first_total : Total Model.newer_first.
Proof. unfold Model.newer_first. intros a b. lia. Qed.

Lemma find_sorted_sorted db :
  StronglySorted Model.newer_first (Model.find_sorted db).
Proof. apply StronglySorted_merge_sort; apply _. Qed.

Lemma find_sorted_perm db : Model.find_sorted db ≡ₚ db.
Proof. apply merge_sort_Permutation. Qed.

Lemma js_or_int_nonzero z d : z ≠ 0 → js_or_int (Some z) d = z.
Proof. intros Hz. unfold js_or_int. by rewrite decide_False. Qed.

(** With the connection up, [part_001]'s [await connectDB()] is fulfilled
    and leaves the manager well-formed. *)
Lemma Retry_await_connected s :
  Retry_wf s →
  fst (Retry.await_connectDB Connected s) = Done (Fulfilled JTrue)
  ∧ Retry_wf (snd (Retry.await_connectDB Connected s)).
Proof.
  intros Hwf. unfold Retry.await_connectDB.
  pose proof (Retry_wf_connectDB s Hwf) as Hwf1.
  assert (∀ p, fst (Retry.connectDB s) = Await p →
            Retry.attempts (snd (Retry.connectDB s)) !! p = Some Pending) as Hp.
  { intros p. unfold Retry.connectDB. destruct Hwf as [H1 H2].
    destruct (Retry.isConnected s) eqn:Hc; [done|].
    destruct (Retry.connectionPromise s) as [q|] eqn:Hq; simpl.
    - intros [= <-]. by apply H2.
    - intros [= <-]. rewrite lookup_app_r by lia. by rewrite Nat.sub_diag. }
  destruct (Retry.connectDB s) as [[v|p] s1] eqn:E; simpl in *.
  - split; [|done]. unfold Retry.connectDB in E.
    destruct (Retry.isConnected s); [by simplify_eq|].
    destruct (Retry.connectionPromise s); simplify_eq.
  - specialize (Hp p eq_refl). split.
    + rewrite Retry_settle_pending by done. simpl.
      rewrite list_lookup_insert_eq; [done|]. by eapply lookup_lt_Some.
    + by apply Retry_wf_settle.
Qed.

Lemma list_page_miss {Conn : Type} (CACHE_TTL : Z)
    (await_connectDB : Outcome → Conn → PromiseState JsVal * Conn)
    env db p n (st : Web.Server Conn) :
  1 ≤ p → 1 ≤ n →
  Cache.getCachedData CACHE_TTL (Web.cache st) (Web.t_read env)
    (Web.page_key p) = None →
  connects await_connectDB env st →
  Web.query_fault env = None →
  Web.list_page CACHE_TTL await_connectDB env db (Some p) (Some n) st
  = (Some (Web.json (Web.BJson (Web.CImages
       (take (Z.to_nat n)
          (drop (Z.to_nat ((p - 1) * n)) (Model.find_sorted db)))))),
     {| Web.conn := snd (await_connectDB (Web.connect_outcome env)
                           (Web.conn st));
        Web.cache :=
          Cache.setCachedData (Web.cache st) (Web.t_write env)
            (Web.page_key p)
            (Web.CImages
               (take (Z.to_nat n)
                  (drop (Z.to_nat ((p - 1) * n)) (Model.find_sorted db)))) |}).
Proof.
  intros Hp Hn Hget Hconn Hfault. unfold Web.list_page.
  rewrite !js_or_int_nonzero by lia. rewrite Hget.
  unfold Model.find_page. rewrite Hfault.
  rewrite decide_False by nia. rewrite after_miss_answered by done.
  cbn [Web.conn Web.cache]. by rewrite Z.abs_eq by lia.
Qed.

Lemma page_key_1_2 : Web.page_key 1 ≠ Web.page_key 2.
Proof. vm_compute. discriminate. Qed.

(** C8, as stated, fails.  Page 1 of size 10 is requested while the
    store holds 5 documents and is cached; 10 more documents are stored;
    two and three seconds after the fill, with 15 documents in the store,
    page 1 and page 2 of size 10 are requested.  Page 1 comes from the
    cache: the 5 documents of the fill, not the 10 newest.  Page 2 comes
    from the store: the 5 oldest.  The same documents are on both pages
    and the 10 newest are on neither. *)
Lemma list_page_cached_page_is_served :
  let served0 :=
    Web.paged_list_page (request_at 1000) (sample_store 5) (Some 1) (Some 10)
      paged_start in
  let served1 :=
    Web.paged_list_page (request_at 3000) (sample_store 15) (Some 1) (Some 10)
      (snd served0) in
  let served2 :=
    Web.paged_list_page (request_at 4000) (sample_store 15) (Some 2) (Some 10)
      (snd served1) in
  length (sample_store 15) = 15%nat
  ∧ fmap (M := list) Model._id <$> json_images (fst served1)
    = Some ["5"; "4"; "3"; "2"; "1"]
  ∧ fmap (M := list) Model._id <$> json_images (fst served2)
    = Some ["5"; "4"; "3"; "2"; "1"]
  ∧ length <$> json_images (fst served1) ≠ Some 10%nat.
Proof. vm_compute. split_and!; (reflexivity || discriminate). Qed.

(** C8, amended.  On [part_001], with the connection up and the store
    answering:
    - a request for page [p] of size [n] that is not served from the cache
      answers with the documents sorted by [timestamp], newest first, less
      the first [(p - 1) * n], cut to [n];
    - over a store of 15 documents, page 1 of size 10 and then page 2 of
      size 10, neither served from the cache (as right after the start of
      the process), are 10 and then 5 documents, each page newest first,
      nothing on page 1 older than anything on page 2, and the two pages
      together are the store: each document occurs on one page and only
      once. *)
Theorem list_page_paginates (db : list Model.Image)
    (st : Web.Server Retry.State) (env1 env2 : Web.ReqEnv) :
  Retry_wf (Web.conn st) →
  Web.connect_outcome env1 = Connected → Web.query_fault env1 = None →
  Web.connect_outcome env2 = Connected → Web.query_fault env2 = None →
  (∀ p n, 1 ≤ p → 1 ≤ n →
     Cache.getCachedData Retry.CACHE_TTL (Web.cache st) (Web.t_read env1)
       (Web.page_key p) = None →
     fst (Web.paged_list_page env1 db (Some p) (Some n) st)
     = Some (Web.json (Web.BJson (Web.CImages
         (take (Z.to_nat n)
            (drop (Z.to_nat ((p - 1) * n)) (Model.find_sorted db)))))))
  ∧ (length db = 15%nat →
     Cache.getCachedData Retry.CACHE_TTL (Web.cache st) (Web.t_read env1)
       (Web.page_key 1) = None →
     Cache.getCachedData Retry.CACHE_TTL (Web.cache st) (Web.t_read env2)
       (Web.page_key 2) = None →
     let served1 := Web.paged_list_page env1 db (Some 1) (Some 10) st in
     let served2 :=
       Web.paged_list_page env2 db (Some 2) (Some 10) (snd served1) in
     ∃ l1 l2,
       fst served1 = Some (Web.json (Web.BJson (Web.CImages l1)))
       ∧ fst served2 = Some (Web.json (Web.BJson (Web.CImages l2)))
       ∧ length l1 = 10%nat ∧ length l2 = 5%nat
       ∧ StronglySorted Model.newer_first l1
       ∧ StronglySorted Model.newer_first l2
       ∧ (∀ a b, a ∈ l1 → b ∈ l2 → Model.newer_first a b)
       ∧ l1 ++ l2 ≡ₚ db).
Proof.
  intros Hwf Hc1 Hf1 Hc2 Hf2.
  assert (connects Retry.await_connectDB env1 st) as Hconn1.
  { exists JTrue. rewrite Hc1. by apply Retry_await_connected. }
  split.
  - intros p n Hp Hn Hget. unfold Web.paged_list_page.
    by rewrite list_page_miss.
  - intros Hlen Hget1 Hget2 served1 served2.
    subst served2 served1. unfold Web.paged_list_page.
    rewrite (list_page_miss _ _ env1 db 1 10 st) by (done || lia).
    cbn [fst snd].
    rewrite list_page_miss; [| lia | lia | | | done].
    + cbn [fst]. change (Z.to_nat ((1 - 1) * 10)) with 0%nat.
      change (Z.to_nat ((2 - 1) * 10)) with 10%nat.
      change (Z.to_nat 10) with 10%nat. rewrite drop_0.
      pose proof (find_sorted_sorted db) as Hs.
      pose proof (find_sorted_perm db) as Hperm.
      assert (length (Model.find_sorted db) = 15%nat) as Hl
        by (by rewrite Hperm).
      assert (take 10 (drop 10 (Model.find_sorted db))
              = drop 10 (Model.find_sorted db)) as Htd.
      { apply take_ge. rewrite length_drop. lia. }
      rewrite Htd.
      rewrite <- (take_drop 10 (Model.find_sorted db)) in Hs, Hperm.
      eexists _, _. split_and!; [done|done| | | | | |done].
      * rewrite length_take. lia.
      * rewrite length_drop. lia.
      * by eapply StronglySorted_app_1_l.
      * by eapply StronglySorted_app_1_r.
      * intros a b. by eapply StronglySorted_app_1_elem_of.
    + cbn [Web.cache]. 
      apply getCachedData_None. intros e.
      unfold Cache.setCachedData.
      rewrite lookup_insert_ne by apply page_key_1_2.
      by apply getCachedData_None.
    + exists JTrue. cbn [Web.conn]. rewrite Hc1, Hc2.
      apply Retry_await_connected. by apply Retry_await_connected.
Qed.

Lemma list_page_paginates_witness :
  fmap (M := list) Model._id
    <$> json_images (fst (Web.paged_list_page (request_at 1000)
                            (sample_store 15) (Some 2) (Some 10) paged_start))
  = Some ["5"; "4"; "3"; "2"; "1"]
  ∧ ∃ l1 l2,
      fst (Web.paged_list_page (request_at 1000) (sample_store 15)
             (Some 1) (Some 10) paged_start)
      = Some (Web.json (Web.BJson (Web.CImages l1)))
      ∧ length l1 = 10%nat ∧ length l2 = 5%nat
      ∧ l1 ++ l2 ≡ₚ sample_store 15.
Proof.
  destruct (list_page_paginates (sample_store 15) paged_start
              (request_at 1000) (request_at 2000))
    as [H1 H2]; [apply Retry_wf_init | reflexivity..|].
  split.
  - rewrite (H1 2 10); [reflexivity | lia | lia | reflexivity].
  - destruct (H2 eq_refl eq_refl eq_refl)
      as (l1 & l2 & Hr1 & _ & Hl1 & Hl2 & _ & _ & _ & Hperm).
    exists l1, l2. split_and!; assumption.
Defined.

(** *** The cache key of the listing ([part_001] 288, 301) *)

(** The key is built from the page number alone: once a page is cached
    and fresh, the page size of a request plays no part in the answer. *)
Lemma list_page_hit_ignores_limit (page_q limit1 limit2 : option Z)
    (st : Web.Server Retry.State) (env : Web.ReqEnv) (db : list Model.Image) :
  is_Some (Cache.getCachedData Retry.CACHE_TTL (Web.cache st)
             (Web.t_read env) (Web.page_key (js_or_int page_q 1))) →
  Web.paged_list_page env db page_q limit1 st
  = Web.paged_list_page env db page_q limit2 st.
Proof.
  intros [v Hv]. unfold Web.paged_list_page, Web.list_page. by rewrite Hv.
Qed.

(** C9, on [part_001].  Over a store of 15 documents, right after the
    start: [GET /api/images?page=1&limit=10] at time 1000 is answered from
    the store with 10 documents and fills the cache under [images_page_1];
    [GET /api/images?page=1&limit=5] one second later finds that entry and
    is answered with the same 10 documents, where the store would give 5;
    the same request after the entry has expired replaces the entry of
    the first. *)
Theorem list_page_key_lacks_page_size :
  let db := sample_store 15 in
  let served1 :=
    Web.paged_list_page (request_at 1000) db (Some 1) (Some 10) paged_start in
  let served2 :=
    Web.paged_list_page (request_at 2000) db (Some 1) (Some 5) (snd served1) in
  let served3 :=
    Web.paged_list_page (request_at 70000) db (Some 1) (Some 5) (snd served2) in
  Web.page_key 1 = "images_page_1"
  ∧ length <$> json_images (fst served1) = Some 10%nat
  ∧ fst served2 = fst served1
  ∧ length <$> json_images (fst served2) = Some 10%nat
  ∧ Model.find_page None db ((1 - 1) * 5) 5
    = Fulfilled (take 5 (Model.find_sorted db))
  ∧ Web.cache (snd served2) = Web.cache (snd served1)
  ∧ Cache.data <$> (Web.cache (snd served3) !! "images_page_1")
    = Some (Web.CImages (take 5 (Model.find_sorted db))).
Proof. vm_compute. split_and!; reflexivity. Qed.

(** * Properties beyond the claims *)

(** ** Ingestion ([index.js] 70-107, [models/Image.js]) *)

Lemma first_type_image m :
  first_type m = Some "imageMessage" →
  ∃ c others, Session.message m = Some (("imageMessage", c) :: others).
Proof.
  unfold first_type. destruct (Session.message m) as [obj|]; simpl; [|done].
  destruct obj as [|[k c] obj]; simpl; [done|]. intros [= ->]. eauto.
Qed.

Lemma upsert_download_failed sock m rest db c others e :
  Session.message m = Some (("imageMessage", c) :: others) →
  Session.downloadMediaMessage sock m = Rejected e →
  Session.messages_upsert sock (m :: rest) db
  = (Session.sendMessage sock (Session.remoteJid (Session.key m))
       Session.error_text,
     ([Session.ESend (Session.remoteJid (Session.key m)) Session.error_text],
      db)).
Proof.
  intros Hm Hd. unfold Session.messages_upsert. simpl. rewrite Hm. simpl.
  unfold Session.try_catch, Session.bind, Session.await. by rewrite Hd.
Qed.

Lemma save_cases fault doc db :
  (Model.save fault doc db = (Fulfilled (), db ++ [doc])
   ∧ fault = None ∧ Model.messageId doc ∉ Model.messageId <$> db)
  ∨ (∃ e, Model.save fault doc db = (Rejected e, db)
          ∧ (fault = Some e
             ∨ (e = Model.duplicate_key
                ∧ Model.messageId doc ∈ Model.messageId <$> db))).
Proof.
  unfold Model.save. destruct fault as [e|]; [right; eauto|].
  case_decide; [right|left]; eauto.
Qed.

(** Every run of the listener is one of five. *)
Lemma upsert_cases sock messages db :
  (messages = []
   ∧ Session.messages_upsert sock messages db
     = (Rejected Session.type_error, ([], db)))
  ∨ ∃ m rest, messages = m :: rest ∧
      ((first_type m ≠ Some "imageMessage"
        ∧ Session.messages_upsert sock messages db = (Fulfilled (), ([], db)))
       ∨ (∃ e, first_type m = Some "imageMessage"
          ∧ Session.downloadMediaMessage sock m = Rejected e
          ∧ Session.messages_upsert sock messages db
            = (Session.sendMessage sock (Session.remoteJid (Session.key m))
                 Session.error_text,
               ([Session.ESend (Session.remoteJid (Session.key m))
                   Session.error_text], db)))
       ∨ (∃ doc, first_type m = Some "imageMessage"
          ∧ Model.messageId doc = Session.id (Session.key m)
          ∧ (Model.messageId doc ∉ Model.messageId <$> db)
          ∧ Session.save_fault sock = None
          ∧ Session.messages_upsert sock messages db
            = (Fulfilled (), ([Session.ESave doc], db ++ [doc])))
       ∨ (∃ doc, first_type m = Some "imageMessage"
          ∧ Model.messageId doc = Session.id (Session.key m)
          ∧ (is_Some (Session.save_fault sock)
             ∨ Model.messageId doc ∈ Model.messageId <$> db)
          ∧ Session.messages_upsert sock messages db
            = (Session.sendMessage sock (Session.remoteJid (Session.key m))
                 Session.error_text,
               ([Session.ESave doc;
                 Session.ESend (Session.remoteJid (Session.key m))
                   Session.error_text], db)))).
Proof.
  destruct messages as [|m rest]; [by left|]. right. exists m, rest.
  split; [done|].
  destruct (decide (first_type m = Some "imageMessage")) as [Hty|Hty];
    [|left; split; [done|by apply upsert_not_image]].
  right. destruct (first_type_image m Hty) as (c & others & Hm).
  destruct (Session.downloadMediaMessage sock m) as [buffer|e] eqn:Hd;
    [|left; exists e; split_and!; [done..|by eapply upsert_download_failed]].
  right.
  destruct (upsert_image sock m rest db c others buffer Hm Hd)
    as (doc & Hid & _ & _ & _ & _ & Hrun).
  destruct (save_cases (Session.save_fault sock) doc db)
    as [(Hs & Hf & Hn)|(e & Hs & He)]; rewrite Hs in Hrun.
  - left. exists doc. done.
  - right. exists doc. split_and!; [done|done| |done].
    destruct He as [->|[_ ?]]; [left; eauto | by right].
Qed.

(** X1.  A run of the listener leaves the stored documents as they are
    and adds at most one, at the end, whose identifier is the first
    message's and was not stored before; so identifiers that were
    distinct stay distinct. *)
Theorem upsert_appends_at_most_one_fresh (sock : Session.Env)
    (messages : list Session.WAMessage) (db : list Model.Image) :
  (collection (Session.messages_upsert sock messages db) = db
   ∨ ∃ m rest doc,
       messages = m :: rest
       ∧ collection (Session.messages_upsert sock messages db) = db ++ [doc]
       ∧ Model.messageId doc = Session.id (Session.key m)
       ∧ Model.messageId doc ∉ Model.messageId <$> db)
  ∧ (NoDup (Model.messageId <$> db) →
     NoDup (Model.messageId
              <$> collection (Session.messages_upsert sock messages db))).
Proof.
  assert (collection (Session.messages_upsert sock messages db) = db
          ∨ ∃ m rest doc,
              messages = m :: rest
              ∧ collection (Session.messages_upsert sock messages db)
                = db ++ [doc]
              ∧ Model.messageId doc = Session.id (Session.key m)
              ∧ Model.messageId doc ∉ Model.messageId <$> db) as H.
  { destruct (upsert_cases sock messages db)
      as [[_ ->]|(m & rest & -> & [[_ ->]|[(e & _ & _ & ->)
                                    |[(doc & _ & Hid & Hn & _ & ->)
                                     |(doc & _ & _ & _ & ->)]]])];
      try (by left).
    right. exists m, rest, doc. done. }
  split; [exact H|]. intros Hnd.
  destruct H as [->|(m & rest & doc & _ & -> & _ & Hn)]; [done|].
  rewrite fmap_app. apply NoDup_app. split_and!; [done| |apply NoDup_singleton].
  intros x Hx Hx'. simpl in Hx'. apply list_elem_of_singleton in Hx' as ->. done.
Qed.

Lemma upsert_appends_at_most_one_fresh_witness :
  NoDup (Model.messageId
           <$> collection (Session.messages_upsert sock_ok [image_m1]
                             [stored_m1])).
Proof.
  apply (proj2 (upsert_appends_at_most_one_fresh sock_ok [image_m1] [stored_m1])).
  simpl. apply NoDup_singleton.
Defined.

(** X2.  An image that is delivered twice is stored once: the first run
    stores it; any later run for that message (whatever the socket
    answers then, whatever else the batch holds) hands a document to
    [save], is refused, leaves the collection as the first run left it,
    and sends the error text to the sender. *)
Theorem upsert_redelivery_is_refused (sock sock' : Session.Env)
    (m : Session.WAMessage) (rest rest' : list Session.WAMessage)
    (db : list Model.Image) (c : Session.MessageContent)
    (others : list (string * Session.MessageContent))
    (buffer buffer' : Buffer) :
  Session.message m = Some (("imageMessage", c) :: others) →
  Session.downloadMediaMessage sock m = Fulfilled buffer →
  Session.save_fault sock = None →
  Session.id (Session.key m) ∉ Model.messageId <$> db →
  Session.downloadMediaMessage sock' m = Fulfilled buffer' →
  let first := Session.messages_upsert sock (m :: rest) db in
  let second := Session.messages_upsert sock' (m :: rest') (collection first) in
  ∃ doc doc',
    first = (Fulfilled (), ([Session.ESave doc], db ++ [doc]))
    ∧ Model.imageData doc = buffer
    ∧ collection second = db ++ [doc]
    ∧ effects second
      = [Session.ESave doc';
         Session.ESend (Session.remoteJid (Session.key m)) Session.error_text].
Proof.
  intros Hm Hd Hf Hn Hd' first second.
  destruct (upsert_image sock m rest db c others buffer Hm Hd)
    as (doc & Hid & _ & Hb & _ & _ & Hrun).
  assert (first = (Fulfilled (), ([Session.ESave doc], db ++ [doc]))) as Hfirst.
  { subst first. rewrite Hrun. unfold Model.save. rewrite Hf, Hid.
    by rewrite decide_False. }
  destruct (upsert_image sock' m rest' (db ++ [doc]) c others buffer' Hm Hd')
    as (doc' & Hid' & _ & _ & _ & _ & Hrun').
  exists doc, doc'. split_and!; [done|done| |].
  - subst second. rewrite Hfirst. unfold collection at 2. simpl. rewrite Hrun'.
    destruct (save_cases (Session.save_fault sock') doc' (db ++ [doc]))
      as [(_ & _ & Hfresh)|(e & -> & _)]; [|done].
    exfalso. apply Hfresh. rewrite fmap_app, Hid', <- Hid.
    apply elem_of_app. right. apply list_elem_of_here.
  - subst second. rewrite Hfirst. unfold collection. simpl. rewrite Hrun'.
    destruct (save_cases (Session.save_fault sock') doc' (db ++ [doc]))
      as [(_ & _ & Hfresh)|(e & -> & _)]; [|done].
    exfalso. apply Hfresh. rewrite fmap_app, Hid', <- Hid.
    apply elem_of_app. right. apply list_elem_of_here.
Qed.

Lemma upsert_redelivery_is_refused_witness :
  ∃ doc', effects (Session.messages_upsert sock_send_fails [image_m1]
                     (collection (Session.messages_upsert sock_ok
                                    [image_m1; text_m2] [])))
          = [Session.ESave doc'; Session.ESend "s1" Session.error_text].
Proof.
  destruct (upsert_redelivery_is_refused sock_ok sock_send_fails image_m1
              [text_m2] [] [] _ _ _ _ eq_refl eq_refl eq_refl
              (not_elem_of_nil _) eq_refl)
    as (doc & doc' & _ & _ & _ & H).
  exists doc'. exact H.
Defined.

Lemma app_singleton_neq {A} (l : list A) (x : A) : l ++ [x] ≠ l.
Proof.
  intros H. apply (f_equal length) in H. rewrite length_app in H.
  simpl in H. lia.
Qed.

(** X3.  The sender is notified exactly when the first message of the
    batch is an image and the run stored nothing (its download failed or
    [save] refused it): then the error text goes to the sender of that
    message, once.  In every other run (an image that was stored, a
    message of another type) nothing is sent. *)
Theorem upsert_notifies_iff_image_not_stored (sock : Session.Env)
    (m : Session.WAMessage) (rest : list Session.WAMessage)
    (db : list Model.Image) :
  (first_type m = Some "imageMessage"
   ∧ collection (Session.messages_upsert sock (m :: rest) db) = db →
   notifications (effects (Session.messages_upsert sock (m :: rest) db))
   = [(Session.remoteJid (Session.key m), Session.error_text)])
  ∧ (¬ (first_type m = Some "imageMessage"
        ∧ collection (Session.messages_upsert sock (m :: rest) db) = db) →
     notifications (effects (Session.messages_upsert sock (m :: rest) db))
     = []).
Proof.
  destruct (upsert_cases sock (m :: rest) db)
    as [[? _]|(m' & rest' & [= <- <-]
               & [[Hty ->]|[(e & Hty & Hd & ->)
                           |[(doc & Hty & Hid & Hn & _ & ->)
                            |(doc & Hty & Hid & Hfail & ->)]]])];
    [done|..]; unfold effects, collection; simpl; split; try done.
  - by intros [? _].
  - intros Hn'. exfalso. by apply Hn'.
  - intros [_ Heq]. by apply app_singleton_neq in Heq.
  - intros Hn'. exfalso. by apply Hn'.
Qed.

Lemma upsert_notifies_iff_image_not_stored_witness :
  notifications (effects (Session.messages_upsert sock_ok [image_m1]
                            [stored_m1]))
  = [("s1", Session.error_text)]
  ∧ notifications (effects (Session.messages_upsert sock_ok [image_m1] []))
    = [].
Proof.
  split.
  - apply (proj1 (upsert_notifies_iff_image_not_stored sock_ok image_m1 []
                    [stored_m1])). split; reflexivity.
  - apply (proj2 (upsert_notifies_iff_image_not_stored sock_ok image_m1 [] [])).
    intros [_ H]. vm_compute in H. discriminate H.
Defined.

(** X4.  The listener's promise is rejected in two situations only: the
    batch is empty (reading [messages[0].message] throws), or the error
    text was sent and that send failed, in which case the rejection is
    the send's.  In particular a failed download and a refused [save] do
    not by themselves leave the listener. *)
Theorem upsert_rejection_causes (sock : Session.Env)
    (messages : list Session.WAMessage) (db : list Model.Image)
    (e : JsError) :
  outcome (Session.messages_upsert sock messages db) = Rejected e →
  (messages = [] ∧ e = Session.type_error
   ∧ Session.messages_upsert sock messages db = (Rejected e, ([], db)))
  ∨ ∃ m rest,
      messages = m :: rest
      ∧ Session.sendMessage sock (Session.remoteJid (Session.key m))
          Session.error_text = Rejected e
      ∧ notifications (effects (Session.messages_upsert sock messages db))
        = [(Session.remoteJid (Session.key m), Session.error_text)]
      ∧ collection (Session.messages_upsert sock messages db) = db.
Proof.
  destruct (upsert_cases sock messages db)
    as [[-> ->]|(m & rest & -> & [[Hty ->]|[(e' & Hty & Hd & ->)
                                  |[(doc & Hty & Hid & Hn & _ & ->)
                                   |(doc & Hty & Hid & Hfail & ->)]]])];
    unfold outcome, effects, collection; simpl; intros Hout.
  - left. by injection Hout as <-.
  - done.
  - right. by exists m, rest.
  - done.
  - right. by exists m, rest.
Qed.

Lemma upsert_rejection_causes_witness :
  (([] : list Session.WAMessage) = [] ∧ Session.type_error = Session.type_error
   ∧ Session.messages_upsert sock_ok [] [stored_m1]
     = (Rejected Session.type_error, ([], [stored_m1])))
  ∨ ∃ m rest,
      [] = m :: rest
      ∧ Session.sendMessage sock_ok (Session.remoteJid (Session.key m))
          Session.error_text = Rejected Session.type_error
      ∧ notifications (effects (Session.messages_upsert sock_ok [] [stored_m1]))
        = [(Session.remoteJid (Session.key m), Session.error_text)]
      ∧ collection (Session.messages_upsert sock_ok [] [stored_m1])
        = [stored_m1].
Proof.
  apply (upsert_rejection_causes sock_ok [] [stored_m1] Session.type_error).
  reflexivity.
Defined.

(** ** Reconnection ([index.js] 44-68, 114) *)

Lemma deliver_created loggedOut sock u c :
  Session.created (Session.deliver loggedOut sock u c) = Session.created c
  ∨ (Session.created (Session.deliver loggedOut sock u c)
     = S (Session.created c)
     ∧ Session.connection u = Some "close"
     ∧ Session.statusCode u ≠ Some loggedOut).
Proof.
  unfold Session.deliver. case_decide as Hin; [|by left].
  case_decide as Hclose.
  - destruct (decide (Session.statusCode u = Some loggedOut)) as [Hs|Hs].
    + rewrite connection_update_logged_out by done. by left.
    + rewrite connection_update_recoverable by done. by right.
  - rewrite perform_logs by (by apply connection_update_not_close). by left.
Qed.

Lemma deliver_all_created loggedOut evs c :
  (Session.created c ≤ Session.created (Session.deliver_all loggedOut evs c)
   ≤ Session.created c + recoverable_closes loggedOut evs)%nat.
Proof.
  revert c. induction evs as [|[sock u] evs IH]; intros c.
  - simpl. unfold recoverable_closes. simpl. lia.
  - simpl. specialize (IH (Session.deliver loggedOut sock u c)).
    unfold recoverable_closes in *. rewrite filter_cons.
    destruct (deliver_created loggedOut sock u c) as [Heq|(Heq & Hc & Hs)];
      rewrite Heq in IH.
    + destruct (decide _); simpl; lia.
    + destruct (decide _) as [Hd|Hd]; simpl in *; [lia|].
      exfalso. by apply Hd.
Qed.

(** X5.  At any moment at most one socket has the listeners registered,
    and the number of calls of [connectToWhatsApp] lies between 1 and 1
    plus the number of closures so far that were not "logged out": a
    connection is made at the start and in answer to such closures, never
    for any other event. *)
Theorem controller_one_socket_bounded_attempts (loggedOut : Z)
    (history : list (nat * Session.ConnectionUpdate)) :
  (length (Session.live (Session.deliver_all loggedOut history Session.start))
   ≤ 1)%nat
  ∧ (1 ≤ Session.created (Session.deliver_all loggedOut history Session.start)
       ≤ 1 + recoverable_closes loggedOut history)%nat.
Proof.
  split.
  - destruct (Controller_inv_deliver_all loggedOut history Session.start
                Controller_inv_start) as [->|(k & -> & _)]; simpl; lia.
  - apply (deliver_all_created loggedOut history Session.start).
Qed.

Lemma closures_from loggedOut code n k :
  code ≠ Some loggedOut →
  Session.deliver_all loggedOut ((λ j, (j, closed_with code)) <$> seq k n)
    {| Session.live := [k]; Session.created := S k |}
  = {| Session.live := [(k + n)%nat]; Session.created := S (k + n) |}.
Proof.
  intros Hcode. revert k. induction n as [|n IH]; intros k.
  - simpl. by rewrite Nat.add_0_r.
  - simpl.
    assert (Session.deliver loggedOut k (closed_with code)
              {| Session.live := [k]; Session.created := S k |}
            = {| Session.live := [S k]; Session.created := S (S k) |}) as ->.
    { unfold Session.deliver. cbn [Session.live Session.created].
      rewrite decide_True by apply list_elem_of_here.
      rewrite decide_True by done. rewrite filter_other_singleton.
      by rewrite connection_update_recoverable. }
    rewrite IH. by rewrite Nat.add_succ_r.
Qed.

(** X6.  Reconnection has no cap and no delay: when socket after socket
    reports a closure that is not "logged out", each closure is answered
    by a new connection in the same turn, so after [n] of them
    [connectToWhatsApp] has been called [n + 1] times and the newest
    socket is the registered one. *)
Theorem controller_reconnects_without_bound (loggedOut : Z) (code : option Z)
    (n : nat) :
  code ≠ Some loggedOut →
  Session.deliver_all loggedOut (closures_in_a_row code n) Session.start
  = {| Session.live := [n]; Session.created := S n |}.
Proof.
  intros Hcode. unfold closures_in_a_row, Session.start.
  apply (closures_from loggedOut code n 0 Hcode).
Qed.

Lemma controller_reconnects_without_bound_witness :
  Session.deliver_all 401 (closures_in_a_row (Some 428) 5) Session.start
  = {| Session.live := [5%nat]; Session.created := 6 |}.
Proof.
  apply (controller_reconnects_without_bound 401 (Some 428) 5). discriminate.
Defined.

(** ** The connection managers beyond de-duplication *)

(** *** [part_001] 150-199: the retry timers *)

Lemma Retry_budget_first_call :
  Retry_budget (snd (Retry.connectDB Retry.init)).
Proof.
  split_and!.
  - apply Retry_wf_connectDB, Retry_wf_init.
  - done.
  - simpl. unfold Retry.MAX_RETRIES. lia.
  - simpl. lia.
  - simpl. lia.
Qed.

Lemma Retry_budget_settle p o s :
  Retry_budget s → Retry_budget (Retry.settle p o s).
Proof.
  intros (Hwf & Hlen & Hmax & Ht & Harmed).
  pose proof (Retry_wf_settle p o s Hwf) as Hwf'.
  unfold Retry.settle in *.
  destruct (Retry.attempts s !! p) as [[|r]|] eqn:Hp; [|done..].
  assert (Retry.timers s = 0%nat) as Ht0.
  { destruct (decide (Retry.timers s = 1%nat)) as [H1|H1]; [|lia].
    destruct (Harmed H1) as [_ Hno]. by destruct (Hno p). }
  destruct o as [|error].
  - split_and!; simpl; [done | by rewrite length_insert | done | lia | lia].
  - split_and!; simpl; [done | by rewrite length_insert | done | |].
    + case_decide; lia.
    + case_decide as Hlt; [|lia]. intros _. split; [done|].
      intros q Hq. destruct Hwf' as [H1 _]. simpl in H1.
      by destruct (H1 q Hq) as [_ ?].
Qed.

Lemma Retry_wf_fields s s' :
  Retry.isConnected s' = Retry.isConnected s →
  Retry.connectionPromise s' = Retry.connectionPromise s →
  Retry.attempts s' = Retry.attempts s →
  Retry_wf s → Retry_wf s'.
Proof. unfold Retry_wf. by intros -> -> ->. Qed.

Lemma Retry_budget_fire_timer s :
  Retry_budget s → Retry_budget (Retry.fire_timer s).
Proof.
  intros Hb. pose proof Hb as (Hwf & Hlen & Hmax & Ht & Harmed).
  unfold Retry.fire_timer. destruct (Retry.timers s) as [|n] eqn:Htm; [done|].
  assert (n = 0%nat) as -> by lia.
  destruct (Harmed eq_refl) as [Hlt Hno].
  match goal with |- Retry_budget (snd (Retry.connectDB ?s0)) =>
    assert (Retry_wf s0) as Hwf0
      by (by apply (Retry_wf_fields s));
    pose proof (Retry_wf_connectDB s0 Hwf0) as Hwf1
  end.
  unfold Retry.connectDB in *. simpl in *.
  destruct (Retry.isConnected s) eqn:Hc.
  { split_and!; simpl; [done|done|done|lia|lia]. }
  destruct (Retry.connectionPromise s) as [p|] eqn:Hp.
  { destruct Hwf as [_ H2]. by destruct (Hno p (H2 p Hc Hp)). }
  simpl in *. split_and!; simpl.
  - done.
  - rewrite length_app. simpl. lia.
  - lia.
  - lia.
  - lia.
Qed.

Lemma Retry_budget_run evs s :
  Forall (λ ev, ev ≠ Retry.Call) evs →
  Retry_budget s → Retry_budget (snd (Retry.run evs s)).
Proof.
  intros Hevs. revert s.
  induction Hevs as [|ev evs Hev _ IH]; intros s Hs; [done|].
  simpl. destruct (Retry.step ev s) as [rs s1] eqn:E1.
  assert (Retry_budget s1) as Hs1.
  { destruct ev as [|p o|]; simpl in E1; [done| |]; simplify_eq.
    - by apply Retry_budget_settle.
    - by apply Retry_budget_fire_timer. }
  specialize (IH s1 Hs1). by destruct (Retry.run evs s1).
Qed.

(** X7.  The retries of [part_001] are bounded: after the first call of
    [connectDB()], as long as nothing but settlements and timers happens
    (no request calls [connectDB()] again), [mongoose.connect] is called
    at most [MAX_RETRIES] = 3 times in all, [connectionAttempts] is the
    number of those calls, at most one attempt is in flight and at most
    one timer is armed. *)
Theorem Retry_timers_stay_within_budget (evs : list Retry.Event) :
  Forall (λ ev, ev ≠ Retry.Call) evs →
  let s := snd (Retry.run (Retry.Call :: evs) Retry.init) in
  (length (Retry.attempts s) ≤ Retry.MAX_RETRIES)%nat
  ∧ Retry.connectionAttempts s = length (Retry.attempts s)
  ∧ (in_flight (Retry.attempts s) ≤ 1)%nat
  ∧ (Retry.timers s ≤ 1)%nat.
Proof.
  intros Hevs s.
  assert (Retry_budget s) as ((H1 & H2) & Hlen & Hmax & Ht & _).
  { subst s. simpl.
    pose proof (Retry_budget_run evs _ Hevs Retry_budget_first_call) as H.
    simpl in H. by destruct (Retry.run evs _). }
  split_and!; [lia|done| |done].
  apply in_flight_unique. intros p q Hp Hq.
  apply H1 in Hp as [_ Hp]. apply H1 in Hq as [_ Hq]. congruence.
Qed.

Lemma Retry_timers_stay_within_budget_witness :
  (length (Retry.attempts
     (snd (Retry.run
        [Retry.Call; Retry.Settle 0 (Failed send_failure); Retry.Timer;
         Retry.Settle 1 (Failed send_failure); Retry.Timer;
         Retry.Settle 2 (Failed send_failure); Retry.Timer; Retry.Timer]
        Retry.init))) ≤ 3)%nat.
Proof.
  apply (Retry_timers_stay_within_budget
           [Retry.Settle 0 (Failed send_failure); Retry.Timer;
            Retry.Settle 1 (Failed send_failure); Retry.Timer;
            Retry.Settle 2 (Failed send_failure); Retry.Timer; Retry.Timer]).
  repeat (apply Forall_cons; split; [discriminate|]). apply Forall_nil_2.
Defined.

(** *** Once connected ([view.js] 42-43, [part_001] 156-160) *)

Lemma View_connected_step ev s :
  View_wf s → View.isConnected s = true →
  View.step ev s
  = (match ev with View.Call => [Return JUndefined] | _ => [] end, s).
Proof.
  intros [H1 _] Hc. destruct ev as [|p o]; simpl.
  - unfold View.connectDB. by rewrite Hc.
  - unfold View.settle.
    destruct (View.attempts s !! p) as [[|r]|] eqn:Hp; [|done..].
    destruct (H1 p Hp) as [Hc' _]. congruence.
Qed.

Lemma View_connected_frozen evs s :
  View_wf s → View.isConnected s = true →
  snd (View.run evs s) = s
  ∧ ∀ r, r ∈ fst (View.run evs s) → r = Return JUndefined.
Proof.
  intros Hwf Hc. induction evs as [|ev evs [IH1 IH2]]; simpl.
  - split; [done|]. by intros r ?%elem_of_nil.
  - rewrite View_connected_step by done.
    destruct (View.run evs s) as [rs s2]. simpl in *. split; [done|].
    intros r [Hr|Hr]%elem_of_app; [|by apply IH2].
    destruct ev; [by apply list_elem_of_singleton in Hr|by apply elem_of_nil in Hr].
Qed.

Lemma Retry_connected_step ev s :
  Retry_wf s → Retry.isConnected s = true →
  let s1 := snd (Retry.step ev s) in
  Retry_wf s1 ∧ Retry.isConnected s1 = true
  ∧ Retry.attempts s1 = Retry.attempts s
  ∧ ∀ r, r ∈ fst (Retry.step ev s) → r = Return JTrue.
Proof.
  intros Hwf Hc. pose proof Hwf as [H1 _]. destruct ev as [|p o|]; simpl.
  - unfold Retry.connectDB. rewrite Hc. simpl. split_and!; [done..|].
    by intros r ?%list_elem_of_singleton.
  - unfold Retry.settle.
    destruct (Retry.attempts s !! p) as [[|r]|] eqn:Hp;
      [|split_and!; [done..|by intros ? ?%elem_of_nil]..].
    destruct (H1 p Hp) as [Hc' _]. congruence.
  - unfold Retry.fire_timer.
    destruct (Retry.timers s) as [|n];
      [split_and!; [done..|by intros ? ?%elem_of_nil]|].
    unfold Retry.connectDB. simpl. rewrite Hc. simpl.
    split_and!; [|done|done|by intros ? ?%elem_of_nil].
    by apply (Retry_wf_fields s).
Qed.

Lemma Retry_connected_stays evs s :
  Retry_wf s → Retry.isConnected s = true →
  Retry.isConnected (snd (Retry.run evs s)) = true
  ∧ Retry.attempts (snd (Retry.run evs s)) = Retry.attempts s
  ∧ ∀ r, r ∈ fst (Retry.run evs s) → r = Return JTrue.
Proof.
  revert s. induction evs as [|ev evs IH]; intros s Hwf Hc; simpl.
  - split_and!; [done..|]. by intros r ?%elem_of_nil.
  - destruct (Retry_connected_step ev s Hwf Hc) as (Hwf1 & Hc1 & Ha1 & Hr1).
    destruct (Retry.step ev s) as [rs s1]. simpl in *.
    destruct (IH s1 Hwf1 Hc1) as (Hc2 & Ha2 & Hr2).
    destruct (Retry.run evs s1) as [rs' s2]. simpl in *.
    split_and!; [done|congruence|].
    intros r [Hr|Hr]%elem_of_app; eauto.
Qed.

(** X8.  Being connected is final.  From the moment [isConnected] is
    [true], in [view.js] no call, settlement or anything else changes the
    manager at all, and in [part_001] none changes [isConnected] or starts
    an attempt; every later call of [connectDB()] completes at once
    ([undefined] in [view.js], [true] in [part_001]).  Neither manager
    ever goes back to connecting, whatever becomes of the database. *)
Theorem connected_is_final :
  (∀ before later,
     let s := snd (View.run before View.init) in
     View.isConnected s = true →
     snd (View.run later s) = s
     ∧ ∀ r, r ∈ fst (View.run later s) → r = Return JUndefined)
  ∧ (∀ before later,
       let s := snd (Retry.run before Retry.init) in
       Retry.isConnected s = true →
       Retry.isConnected (snd (Retry.run later s)) = true
       ∧ Retry.attempts (snd (Retry.run later s)) = Retry.attempts s
       ∧ ∀ r, r ∈ fst (Retry.run later s) → r = Return JTrue).
Proof.
  split.
  - intros before later s Hc. apply View_connected_frozen; [|done].
    apply View_wf_run, View_wf_init.
  - intros before later s Hc. apply Retry_connected_stays; [|done].
    apply Retry_wf_run, Retry_wf_init.
Qed.

Lemma connected_is_final_witness :
  snd (View.run [View.Call; View.Settle 0 (Failed send_failure); View.Call]
         (snd (View.run [View.Call; View.Settle 0 Connected] View.init)))
  = snd (View.run [View.Call; View.Settle 0 Connected] View.init).
Proof.
  apply (proj1 connected_is_final [View.Call; View.Settle 0 Connected]).
  reflexivity.
Defined.

(** *** [part_000] 38-56 *)

Lemma in_flight_app l1 l2 :
  in_flight (l1 ++ l2) = (in_flight l1 + in_flight l2)%nat.
Proof. unfold in_flight. by rewrite filter_app, length_app. Qed.

Lemma in_flight_replicate n : in_flight (replicate n Pending) = n.
Proof.
  induction n as [|n IH]; [done|]. simpl. rewrite in_flight_cons.
  by rewrite decide_True, IH.
Qed.

(** X9.  [part_000] does not share attempts: [n] calls of [connectDB()]
    made while disconnected call [mongoose.connect] [n] times, each caller
    waits for an attempt of its own, and [n] more attempts are in flight. *)
Theorem Plain_calls_each_start_an_attempt (n : nat) (s : Plain.State) :
  Plain.isConnected s = false →
  PlainServer.run (replicate n PlainServer.Call) s
  = ((λ i, Await (length (Plain.attempts s) + i)) <$> seq 0 n,
     {| Plain.isConnected := false;
        Plain.attempts := Plain.attempts s ++ replicate n Pending;
        Plain.logged := Plain.logged s |})
  ∧ in_flight (Plain.attempts
                 (snd (PlainServer.run (replicate n PlainServer.Call) s)))
    = (in_flight (Plain.attempts s) + n)%nat.
Proof.
  intros Hc.
  assert (PlainServer.run (replicate n PlainServer.Call) s
          = ((λ i, Await (length (Plain.attempts s) + i)) <$> seq 0 n,
             {| Plain.isConnected := false;
                Plain.attempts := Plain.attempts s ++ replicate n Pending;
                Plain.logged := Plain.logged s |})) as Hrun.
  { revert s Hc. induction n as [|n IH]; intros s Hc.
    - simpl. rewrite app_nil_r. destruct s. simpl in Hc. by subst.
    - simpl. unfold Plain.connectDB. rewrite Hc. rewrite IH by done.
      simpl. rewrite length_app. simpl. rewrite Nat.add_0_r.
      rewrite <- app_assoc. simpl. f_equal. f_equal.
      rewrite <- fmap_S_seq, <- list_fmap_compose. apply list_fmap_ext.
      intros i x _. simpl. f_equal. lia. }
  split; [done|]. rewrite Hrun. simpl.
  by rewrite in_flight_app, in_flight_replicate.
Qed.

Lemma Plain_calls_each_start_an_attempt_witness :
  in_flight (Plain.attempts
               (snd (PlainServer.run (replicate 4 PlainServer.Call) Plain.init)))
  = 4%nat.
Proof.
  apply (proj2 (Plain_calls_each_start_an_attempt 4 Plain.init eq_refl)).
Defined.

Lemma Plain_settled_undefined evs :
  ∀ s, Forall (λ a, a = Pending ∨ a = Done (Fulfilled JUndefined))
         (Plain.attempts s) →
       Forall (λ a, a = Pending ∨ a = Done (Fulfilled JUndefined))
         (Plain.attempts (snd (PlainServer.run evs s))).
Proof.
  induction evs as [|ev evs IH]; intros s Hs; [done|].
  simpl. destruct (PlainServer.step ev s) as [rs s1] eqn:E1.
  assert (Forall (λ a, a = Pending ∨ a = Done (Fulfilled JUndefined))
            (Plain.attempts s1)) as Hs1.
  { destruct ev as [|p o]; simpl in E1.
    - unfold Plain.connectDB in E1.
      destruct (Plain.isConnected s); simplify_eq; [done|]. simpl.
      apply Forall_app. split; [done|]. apply Forall_singleton. by left.
    - simplify_eq. unfold Plain.settle.
      destruct (Plain.attempts s !! p) as [[|r]|]; [|done..].
      destruct o; simpl; apply Forall_insert; auto. }
  specialize (IH s1 Hs1). by destruct (PlainServer.run evs s1).
Qed.

(** X10.  In [part_000] no caller of [connectDB()] is ever given a
    rejection: after any sequence of calls and settlements, whatever a
    caller holds is pending or fulfilled, never rejected, whichever way
    the connection attempts ended. *)
Theorem Plain_connectDB_never_rejects (evs : list PlainServer.Event)
    (r : CallResult) (e : JsError) :
  observe (Plain.attempts (snd (PlainServer.run evs Plain.init))) r
  ≠ Done (Rejected e).
Proof.
  pose proof (Plain_settled_undefined evs Plain.init (Forall_nil_2 _)) as H.
  destruct r as [v|p]; simpl; [done|].
  destruct (Plain.attempts _ !! p) as [a|] eqn:Hp; simpl; [|done].
  rewrite Forall_forall in H. apply list_elem_of_lookup_2 in Hp.
  by destruct (H a Hp) as [->| ->].
Qed.

(** ** The handlers of the cached servers ([view.js] 98-161, [part_001]
       251-323) *)

Lemma page_key_inj (p q : Z) : Web.page_key p = Web.page_key q → p = q.
Proof.
  unfold Web.page_key. intros H.
  apply (inj (String.append "images_page_")) in H. by apply (inj pretty) in H.
Qed.

Lemma page_key_not_all (p : Z) : Web.page_key p ≠ "all_images".
Proof. unfold Web.page_key. cbn [String.append]. discriminate. Qed.

Lemma send_doc_status lean ct data :
  Web.status (Web.send_doc lean ct data) = 200.
Proof. by destruct lean. Qed.

Section handlers_more.
Context {Conn : Type}.
Variable CACHE_TTL : Z.
Variable await_connectDB : Outcome → Conn → PromiseState JsVal * Conn.
Variable lean : bool.

Local Abbreviation handle := (Web.handle CACHE_TTL await_connectDB lean).

(** A request looks its own key up and nothing else. *)
Lemma handle_hit env db req (st : Web.Server Conn) v :
  Cache.getCachedData CACHE_TTL (Web.cache st) (Web.t_read env)
    (request_key req) = Some v →
  snd (handle env db req st) = st
  ∧ ∃ resp, fst (handle env db req st) = Some resp
            ∧ (Web.status resp = 200 ∨ Web.status resp = 500)
            ∧ ∀ env' db', Web.t_read env' = Web.t_read env →
                handle env' db' req st = (Some resp, st).
Proof.
  intros Hv. destruct req as [id| |page limit|]; simpl in *.
  - unfold Web.get_image. rewrite Hv. split; [done|]. eexists.
    split_and!; [done|left; apply send_doc_status|].
    intros env' db' ->. by rewrite Hv.
  - unfold Web.list_all. rewrite Hv. split; [done|]. eexists.
    split_and!; [done|by left|]. intros env' db' ->. by rewrite Hv.
  - unfold Web.list_page. rewrite Hv. split; [done|]. eexists.
    split_and!; [done|by left|]. intros env' db' ->. by rewrite Hv.
  - unfold Web.root. rewrite Hv. destruct v; (split; [done|]); eexists;
      (split_and!; [done|by (left + right)|]);
      intros env' db' ->; by rewrite Hv.
Qed.

(** What serving a request does to the cache and the connection. *)
Lemma handle_state env db req (st : Web.Server Conn) :
  (Web.conn (snd (handle env db req st)) = Web.conn st
   ∨ Web.conn (snd (handle env db req st))
     = snd (await_connectDB (Web.connect_outcome env) (Web.conn st)))
  ∧ (Web.cache (snd (handle env db req st)) = Web.cache st
     ∨ ∃ v, Web.cache (snd (handle env db req st))
            = Cache.setCachedData (Web.cache st) (Web.t_write env)
                (request_key req) v).
Proof.
  destruct req as [id| |page limit|]; simpl.
  - unfold Web.get_image. destruct (Cache.getCachedData _ _ _ _);
      [by split; left|].
    unfold Web.after_miss.
    destruct (await_connectDB _ _) as [[|[v|e]] c']; simpl;
      [by split; [right|left]| |by split; [right|left]].
    destruct (Model.findById _ _ _) as [[image|]|e]; simpl;
      split; try (by right); try (by left). right. eauto.
  - unfold Web.list_all. destruct (Cache.getCachedData _ _ _ _);
      [by split; left|].
    unfold Web.after_miss.
    destruct (await_connectDB _ _) as [[|[v|e]] c']; simpl;
      [by split; [right|left]| |by split; [right|left]].
    destruct (Web.query_fault env); simpl;
      split; try (by right); try (by left). right. eauto.
  - unfold Web.list_page. destruct (Cache.getCachedData _ _ _ _);
      [by split; left|].
    unfold Web.after_miss.
    destruct (await_connectDB _ _) as [[|[v|e]] c']; simpl;
      [by split; [right|left]| |by split; [right|left]].
    destruct (Model.find_page _ _ _ _); simpl;
      split; try (by right); try (by left). right. eauto.
  - unfold Web.root. destruct (Cache.getCachedData _ _ _ _) as [[]|];
      [by split; left..|].
    unfold Web.after_miss.
    destruct (await_connectDB _ _) as [[|[v|e]] c']; simpl;
      [by split; [right|left]| |by split; [right|left]].
    destruct (Web.query_fault env); simpl;
      split; try (by right); try (by left). right. eauto.
Qed.

(** A request whose [await connectDB()] settles is answered. *)
Lemma handle_answered env db req (st : Web.Server Conn) :
  fst (await_connectDB (Web.connect_outcome env) (Web.conn st)) ≠ Pending →
  answered (fst (handle env db req st))
  ∧ (∀ resp, fst (handle env db req st) = Some resp →
       Web.status resp = 404 → ∃ id, req = Web.GetImage id).
Proof.
  intros Hset. unfold answered.
  destruct req as [id| |page limit|]; simpl.
  - unfold Web.get_image. destruct (Cache.getCachedData _ _ _ _);
      [split; [eexists; split; [done|left; apply send_doc_status]|eauto]|].
    unfold Web.after_miss.
    destruct (await_connectDB _ _) as [[|[v|e]] c']; simpl in *; [done| |].
    + destruct (Model.findById _ _ _) as [[image|]|e]; simpl;
        (split; [eexists; split;
                   [done|rewrite ?send_doc_status; simpl; auto]|eauto]).
    + split; [eexists; split; [done|simpl; auto]|eauto].
  - unfold Web.list_all. destruct (Cache.getCachedData _ _ _ _);
      [split; [eexists; split; [done|by left]|by intros ? [= <-]]|].
    unfold Web.after_miss.
    destruct (await_connectDB _ _) as [[|[v|e]] c']; simpl in *; [done| |].
    + destruct (Web.query_fault env); simpl;
        (split; [eexists; split; [done|simpl; auto]|by intros ? [= <-]]).
    + split; [eexists; split; [done|simpl; auto]|by intros ? [= <-]].
  - unfold Web.list_page. destruct (Cache.getCachedData _ _ _ _);
      [split; [eexists; split; [done|by left]|by intros ? [= <-]]|].
    unfold Web.after_miss.
    destruct (await_connectDB _ _) as [[|[v|e]] c']; simpl in *; [done| |].
    + destruct (Model.find_page _ _ _ _); simpl;
        (split; [eexists; split; [done|simpl; auto]|by intros ? [= <-]]).
    + split; [eexists; split; [done|simpl; auto]|by intros ? [= <-]].
  - unfold Web.root. destruct (Cache.getCachedData _ _ _ _) as [[]|];
      [split; [eexists; split; [done|simpl; auto]|by intros ? [= <-]]..|].
    unfold Web.after_miss.
    destruct (await_connectDB _ _) as [[|[v|e]] c']; simpl in *; [done| |].
    + destruct (Web.query_fault env); simpl;
        (split; [eexists; split; [done|simpl; auto]|by intros ? [= <-]]).
    + split; [eexists; split; [done|simpl; auto]|by intros ? [= <-]].
Qed.

End handlers_more.

Lemma View_await_result o s :
  View_wf s →
  View_wf (snd (View.await_connectDB o s))
  ∧ fst (View.await_connectDB o s)
    = Done (if View.isConnected s then Fulfilled JUndefined else settled_as o)
  ∧ (View.isConnected s = false →
     View.isConnected (snd (View.await_connectDB o s))
     = match o with Connected => true | Failed _ => false end
     ∧ (∀ e, o = Failed e →
          View.connectionPromise (snd (View.await_connectDB o s)) = None)).
Proof.
  intros Hwf. unfold View.await_connectDB.
  pose proof (View_wf_connectDB s Hwf) as Hwf1.
  assert (∀ p, fst (View.connectDB s) = Await p →
            View.attempts (snd (View.connectDB s)) !! p = Some Pending) as Hp.
  { intros p. unfold View.connectDB. destruct Hwf as [H1 H2].
    destruct (View.isConnected s) eqn:Hc; [done|].
    destruct (View.connectionPromise s) as [q|] eqn:Hq; simpl.
    - intros [= <-]. by apply H2.
    - intros [= <-]. rewrite lookup_app_r by lia. by rewrite Nat.sub_diag. }
  assert (View.isConnected s = true → View.connectDB s = (Return JUndefined, s))
    as Hret by (intros Hc; unfold View.connectDB; by rewrite Hc).
  assert (View.isConnected s = false → ∃ p, fst (View.connectDB s) = Await p)
    as Hawait.
  { intros Hc. unfold View.connectDB. rewrite Hc.
    destruct (View.connectionPromise s); simpl; eauto. }
  destruct (View.isConnected s) eqn:Hc.
  - rewrite Hret by done. by split_and!.
  - destruct (Hawait eq_refl) as [p Hfst].
    destruct (View.connectDB s) as [r s1]. simpl in *. subst r.
    specialize (Hp p eq_refl). split_and!.
    + by apply View_wf_settle.
    + simpl. rewrite View_settle_pending by done.
      rewrite list_lookup_insert_eq; [done|]. by eapply lookup_lt_Some.
    + intros _. unfold View.settle. rewrite Hp. destruct o; simpl; [done|].
      split; [done|]. done.
Qed.

Lemma Retry_await_settles o s :
  Retry_wf s →
  fst (Retry.await_connectDB o s) ≠ Pending
  ∧ Retry_wf (snd (Retry.await_connectDB o s)).
Proof.
  intros Hwf. unfold Retry.await_connectDB.
  pose proof (Retry_wf_connectDB s Hwf) as Hwf1.
  assert (∀ p, fst (Retry.connectDB s) = Await p →
            Retry.attempts (snd (Retry.connectDB s)) !! p = Some Pending) as Hp.
  { intros p. unfold Retry.connectDB. destruct Hwf as [H1 H2].
    destruct (Retry.isConnected s) eqn:Hc; [done|].
    destruct (Retry.connectionPromise s) as [q|] eqn:Hq; simpl.
    - intros [= <-]. by apply H2.
    - intros [= <-]. rewrite lookup_app_r by lia. by rewrite Nat.sub_diag. }
  destruct (Retry.connectDB s) as [[v|p] s1]; simpl in *; [done|].
  specialize (Hp p eq_refl). split; [|by apply Retry_wf_settle].
  rewrite Retry_settle_pending by done.
  rewrite list_lookup_insert_eq; [done|]. by eapply lookup_lt_Some.
Qed.

Lemma view_serve_all_answered reqs (st : Web.Server View.State) :
  View_wf (Web.conn st) →
  Forall answered (fst (view_serve_all reqs st)).
Proof.
  revert st. induction reqs as [|[[env db] req] reqs IH];
    intros st Hst; simpl; [done|].
  destruct (View_await_result (Web.connect_outcome env) _ Hst)
    as (Hwf' & Hres & _).
  assert (fst (View.await_connectDB (Web.connect_outcome env) (Web.conn st))
          ≠ Pending) as Hset by (by rewrite Hres).
  destruct (handle_answered View.CACHE_TTL View.await_connectDB false
              env db (view_route req) st Hset) as [Hans _].
  destruct (handle_state View.CACHE_TTL View.await_connectDB false
              env db (view_route req) st) as [Hconn _].
  destruct (Web.handle _ _ _ env db (view_route req) st) as [r st1].
  simpl in *.
  assert (View_wf (Web.conn st1)) as Hst1
    by (destruct Hconn as [->| ->]; done).
  specialize (IH st1 Hst1).
  destruct (view_serve_all reqs st1). simpl in *. by apply Forall_cons.
Qed.

(** X11.  Every request that reaches a route of [view.js] gets a
    response.  Whatever requests arrive at its image, listing and gallery
    routes, in whatever order, with whatever answers from the database
    (connection refused, query failed, identifier refused, document
    missing), each of them is answered, and with status 200, 404 or 500:
    no request is left waiting on a promise that never settles. *)
Theorem every_request_is_answered
    (reqs : list (Web.ReqEnv * list Model.Image * ViewRequest))
    (st : Web.Server View.State) :
  View_wf (Web.conn st) →
  Forall answered (fst (view_serve_all reqs st)).
Proof. apply view_serve_all_answered. Qed.

Lemma every_request_is_answered_witness :
  Forall answered
    (fst (view_serve_all
            [(failing_at 10 send_failure, image_store 3,
              ViewImage "65a000000000000000000002");
             (request_at 20, image_store 3, ViewImage "9");
             (request_at 30, image_store 3, ViewImages);
             (failing_at 40 send_failure, [], ViewGallery)]
            view_start)).
Proof.
  apply (every_request_is_answered _ view_start). apply View_wf_init.
Defined.

(** X12.  A request whose cache entry is fresh is answered from the cache
    alone: the answer is the same whatever the store holds, whether or
    not the database can be reached and whether or not a query would
    fail, and the server (cache, connection manager) is left exactly as
    it was: no connection attempt, no query, no cache write. *)
Theorem cache_hit_needs_no_store {Conn : Type} (CACHE_TTL : Z)
    (await_connectDB : Outcome → Conn → PromiseState JsVal * Conn)
    (lean : bool)
    (env env' : Web.ReqEnv) (db db' : list Model.Image) (req : Web.Request)
    (st : Web.Server Conn) :
  is_Some (Cache.getCachedData CACHE_TTL (Web.cache st) (Web.t_read env)
             (request_key req)) →
  Web.t_read env' = Web.t_read env →
  Web.handle CACHE_TTL await_connectDB lean env' db' req st
  = Web.handle CACHE_TTL await_connectDB lean env db req st
  ∧ snd (Web.handle CACHE_TTL await_connectDB lean env db req st) = st
  ∧ is_Some (fst (Web.handle CACHE_TTL await_connectDB lean env db req st)).
Proof.
  intros [v Hv] Ht.
  destruct (handle_hit CACHE_TTL await_connectDB lean env db req st v Hv)
    as (Hst & resp & Hresp & _ & Hind).
  rewrite (Hind env' db' Ht), (Hind env db eq_refl). by split_and!.
Qed.

Lemma cache_hit_needs_no_store_witness :
  Web.view_list_all (failing_at 2000 send_failure) []
    (snd (Web.view_list_all (request_at 1000) (sample_store 3) view_start))
  = Web.view_list_all (request_at 2000) (sample_store 3)
      (snd (Web.view_list_all (request_at 1000) (sample_store 3) view_start)).
Proof.
  apply (cache_hit_needs_no_store View.CACHE_TTL View.await_connectDB false
           (request_at 2000) (failing_at 2000 send_failure)
           (sample_store 3) [] Web.ListAll).
  - vm_compute. eauto.
  - reflexivity.
Defined.

(** X13.  A request writes at most the cache entry of its own key.  The
    keys keep requests apart: different image identifiers have different
    keys, different page numbers have different keys, and the keys of
    images, of pages and of the full listing never coincide.  So serving
    one image, page or listing never replaces the cached copy of another. *)
Theorem request_touches_own_entry_only {Conn : Type} (CACHE_TTL : Z)
    (await_connectDB : Outcome → Conn → PromiseState JsVal * Conn)
    (lean : bool)
    (env : Web.ReqEnv) (db : list Model.Image) (req : Web.Request)
    (st : Web.Server Conn) :
  (∀ k, k ≠ request_key req →
     Web.cache (snd (Web.handle CACHE_TTL await_connectDB lean env db req st))
       !! k
     = Web.cache st !! k)
  ∧ (∀ id id', request_key (Web.GetImage id) = request_key (Web.GetImage id')
               → id = id')
  ∧ (∀ p q l l', request_key (Web.ListPage p l) = request_key (Web.ListPage q l')
                 → js_or_int p 1 = js_or_int q 1)
  ∧ (∀ id p l, request_key (Web.GetImage id) ≠ request_key (Web.ListPage p l)
               ∧ request_key (Web.GetImage id) ≠ request_key Web.ListAll
               ∧ request_key (Web.ListPage p l) ≠ request_key Web.ListAll).
Proof.
  split_and!.
  - intros k Hk.
    destruct (handle_state CACHE_TTL await_connectDB lean env db req st)
      as [_ [->|[v ->]]]; [done|].
    unfold Cache.setCachedData. by rewrite lookup_insert_ne.
  - simpl. intros id id' H. by apply (inj (String.append "image_")) in H.
  - simpl. intros p q l l'. apply page_key_inj.
  - intros id p l. simpl. split_and!.
    + apply image_key_not_page.
    + apply image_key_not_all.
    + apply page_key_not_all.
Qed.

Lemma request_touches_own_entry_only_witness :
  Web.cache (snd (Web.paged_list_page (request_at 2000) (sample_store 15)
                    (Some 2) (Some 10)
                    (snd (Web.paged_list_page (request_at 1000)
                            (sample_store 15) (Some 1) (Some 10) paged_start))))
    !! Web.page_key 1
  = Web.cache (snd (Web.paged_list_page (request_at 1000) (sample_store 15)
                      (Some 1) (Some 10) paged_start)) !! Web.page_key 1.
Proof.
  apply (proj1 (request_touches_own_entry_only Retry.CACHE_TTL
                  Retry.await_connectDB true (request_at 2000)
                  (sample_store 15)
                  (Web.ListPage (Some 2) (Some 10)) _)).
  apply page_key_1_2.
Defined.



Lemma Plain_await_fulfilled o s :
  fst (Plain.await_connectDB o s) = Done (Fulfilled JUndefined).
Proof.
  unfold Plain.await_connectDB, Plain.connectDB.
  destruct (Plain.isConnected s); [done|]. simpl.
  unfold Plain.settle. simpl. rewrite lookup_app_r by lia.
  rewrite Nat.sub_diag. simpl. destruct o; simpl;
    (rewrite list_lookup_insert_eq; [done|rewrite length_app; simpl; lia]).
Qed.

Lemma same_id_same_doc (db : list Model.Image) a b :
  NoDup (Model._id <$> db) → a ∈ db → b ∈ db →
  Model._id a = Model._id b → a = b.
Proof.
  induction db as [|d db IH]; [by intros _ ?%elem_of_nil|].
  rewrite fmap_cons. intros [Hd Hnd]%NoDup_cons Ha Hb Heq.
  apply elem_of_cons in Ha as [->|Ha]; apply elem_of_cons in Hb as [->|Hb].
  - done.
  - exfalso. apply Hd. rewrite Heq. by apply list_elem_of_fmap_2.
  - exfalso. apply Hd. rewrite <- Heq. by apply list_elem_of_fmap_2.
  - by apply IH.
Qed.

(** X15.  The image cache is invisible.  In every state a server with a
    cache can reach, over a store whose [_id]s are distinct, with the
    database reachable, [GET /api/image/:id] of [view.js] and of
    [part_001] answers exactly what the same handler answers with an
    empty cache, that is from the store: a cached image is never out of
    date and never stands in for a missing document.  For [view.js], which
    like [part_000] reads mongoose documents, that answer is also the one
    of the handler of [part_000], which has no cache. *)
Theorem image_cache_is_transparent {Conn : Type} (CACHE_TTL : Z)
    (await_connectDB : Outcome → Conn → PromiseState JsVal * Conn)
    (lean : bool)
    (db : list Model.Image) (st : Web.Server Conn) (env : Web.ReqEnv)
    (id : string) (s : Plain.State) :
  Web.reachable CACHE_TTL await_connectDB lean db st →
  NoDup (Model._id <$> db) →
  connects await_connectDB env st →
  Web.query_fault env = None →
  fst (Web.get_image CACHE_TTL await_connectDB lean env db id st)
  = fst (Web.get_image CACHE_TTL await_connectDB lean env db id
           {| Web.conn := Web.conn st; Web.cache := ∅ |})
  ∧ (lean = false →
     fst (Web.get_image CACHE_TTL await_connectDB lean env db id st)
     = fst (PlainServer.get_image env db id s)).
Proof.
  intros Hreach Hnd Hconn Hfault.
  pose proof (Coherent_reachable _ _ _ _ _ Hreach) as Hcoh.
  pose proof (cached_ids_cast _ _ _ _ _ Hreach) as Hcast.
  assert (fst (Web.get_image CACHE_TTL await_connectDB lean env db id st)
          = Some (match Model.findById None db id with
                  | Rejected _ => Web.send_status 500 "Error serving image"
                  | Fulfilled None => Web.send_status 404 "Image not found"
                  | Fulfilled (Some image) =>
                      Web.send_doc lean (Some (Model.contentType image))
                        (Some (Model.imageData image))
                  end)) as Hstore.
  { unfold Web.get_image. rewrite Hfault.
    destruct (Cache.getCachedData _ _ _ _) as [v|] eqn:Hget.
    - apply getCachedData_Some in Hget as (e & He & <- & _).
      destruct (Hcoh id e He) as (doc & Hin & Hid & ->). simpl.
      unfold Model.findById. rewrite (Hcast id) by eauto.
      destruct (find _ db) as [doc'|] eqn:Hfind.
      + apply findById_Some in Hfind as [Hin' Hid'].
        assert (doc' = doc) as ->; [|done].
        apply (same_id_same_doc db); [done..|congruence].
      + exfalso. by eapply findById_None.
    - destruct (Model.findById None db id) as [[image|]|e].
      + by rewrite after_miss_answered.
      + by rewrite after_miss_answered.
      + by rewrite after_miss_rejected. }
  split.
  - rewrite Hstore. unfold Web.get_image.
    assert (Cache.getCachedData CACHE_TTL
              (Web.cache {| Web.conn := Web.conn st; Web.cache := ∅ |})
              (Web.t_read env) ("image_" +:+ id) = None) as ->.
    { apply getCachedData_None. intros e. simpl. by rewrite lookup_empty. }
    assert (connects await_connectDB env
              {| Web.conn := Web.conn st; Web.cache := ∅ |}) as Hconn'
      by exact Hconn.
    rewrite Hfault. destruct (Model.findById None db id) as [[image|]|e].
    + by rewrite after_miss_answered.
    + by rewrite after_miss_answered.
    + by rewrite after_miss_rejected.
  - intros ->. rewrite Hstore.
    unfold PlainServer.get_image, PlainServer.after_connect.
    pose proof (Plain_await_fulfilled (Web.connect_outcome env) s) as Hplain.
    destruct (Plain.await_connectDB _ s) as [r s']. simpl in Hplain. subst r.
    rewrite Hfault. by destruct (Model.findById None db id) as [[image|]|e].
Qed.

Lemma image_cache_is_transparent_witness :
  fst (Web.view_get_image (request_at 2000) (image_store 3)
         "65a000000000000000000002"
         (snd (Web.view_get_image (request_at 1000) (image_store 3)
                 "65a000000000000000000002" view_start)))
  = fst (PlainServer.get_image (request_at 2000) (image_store 3)
           "65a000000000000000000002" Plain.init).
Proof.
  apply (image_cache_is_transparent View.CACHE_TTL View.await_connectDB false);
    [| | | |reflexivity].
  - apply (Web.reach_request _ _ _ _ _ _
             (Web.GetImage "65a000000000000000000002")), Web.reach_start.
  - vm_compute. repeat (apply NoDup_cons; split;
      [rewrite ?elem_of_cons, elem_of_nil; intros H;
       repeat destruct H as [H|H]; discriminate || done|]).
    apply NoDup_nil_2.
  - by exists JUndefined.
  - reflexivity.
Defined.

(** X16.  A refused connection costs one request, not the server.  In
    [view.js], a request for an image that is not cached, arriving while
    disconnected, whose connection attempt fails: the response is 500,
    the cache is untouched, and the manager is back to disconnected with
    no recorded attempt.  The next request for it then starts a new
    attempt and, if that one succeeds, is answered from the store. *)
Theorem view_failed_connection_is_retried (db : list Model.Image)
    (st : Web.Server View.State) (env env' : Web.ReqEnv) (id : string)
    (error : JsError) :
  View_wf (Web.conn st) →
  View.isConnected (Web.conn st) = false →
  Web.connect_outcome env = Failed error →
  Cache.getCachedData View.CACHE_TTL (Web.cache st) (Web.t_read env)
    ("image_" +:+ id) = None →
  let served := Web.view_get_image env db id st in
  fst served = Some (Web.send_status 500 "Error serving image")
  ∧ Web.cache (snd served) = Web.cache st
  ∧ View.isConnected (Web.conn (snd served)) = false
  ∧ View.connectionPromise (Web.conn (snd served)) = None
  ∧ (Web.connect_outcome env' = Connected →
     Web.query_fault env' = None →
     Cache.getCachedData View.CACHE_TTL (Web.cache st) (Web.t_read env')
       ("image_" +:+ id) = None →
     fst (Web.view_get_image env' db id (snd served))
     = Some (match Model.findById None db id with
             | Fulfilled (Some image) =>
                 Web.send_image (Some (Model.contentType image))
                                (Some (Model.imageData image))
             | Fulfilled None => Web.send_status 404 "Image not found"
             | Rejected _ => Web.send_status 500 "Error serving image"
             end)
     ∧ View.isConnected (Web.conn (snd (Web.view_get_image env' db id
                                          (snd served)))) = true).
Proof.
  intros Hwf Hc Hfail Hget served.
  destruct (View_await_result (Failed error) (Web.conn st) Hwf)
    as (Hwf1 & Hr1 & Hs1).
  rewrite Hc in Hr1. destruct (Hs1 Hc) as [Hc1 Hp1].
  specialize (Hp1 error eq_refl).
  assert (served
          = (Some (Web.send_status 500 "Error serving image"),
             {| Web.conn := snd (View.await_connectDB (Failed error)
                                   (Web.conn st));
                Web.cache := Web.cache st |})) as Hserved.
  { subst served. unfold Web.view_get_image, Web.get_image. rewrite Hget.
    unfold Web.after_miss. rewrite Hfail.
    destruct (View.await_connectDB (Failed error) (Web.conn st)) as [r c'].
    simpl in *. by subst r. }
  rewrite Hserved. cbn [fst snd Web.conn Web.cache].
  split_and!; [done..|]. intros Hok Hfault Hget'.
  destruct (View_await_result Connected _ Hwf1) as (Hwf2 & Hr2 & Hs2).
  rewrite Hc1 in Hr2. destruct (Hs2 Hc1) as [Hc2 _].
  assert (connects View.await_connectDB env'
            {| Web.conn := snd (View.await_connectDB (Failed error)
                                  (Web.conn st));
               Web.cache := Web.cache st |}) as Hconn'
    by (exists JTrue; cbn [Web.conn]; by rewrite Hok).
  unfold Web.view_get_image, Web.get_image. cbn [Web.cache]. rewrite Hget'.
  rewrite Hfault.
  destruct (Model.findById None db id) as [[image|]|e].
  - rewrite after_miss_answered by done. cbn [Web.conn fst snd].
    by rewrite Hok.
  - rewrite after_miss_answered by done. cbn [Web.conn fst snd].
    by rewrite Hok.
  - rewrite after_miss_rejected by done. cbn [Web.conn fst snd].
    by rewrite Hok.
Qed.

Lemma view_failed_connection_is_retried_witness :
  fst (Web.view_get_image (failing_at 1000 send_failure) (image_store 3)
         "65a000000000000000000002" view_start)
  = Some (Web.send_status 500 "Error serving image")
  ∧ fst (Web.view_get_image (request_at 2000) (image_store 3)
           "65a000000000000000000002"
           (snd (Web.view_get_image (failing_at 1000 send_failure)
                   (image_store 3) "65a000000000000000000002" view_start)))
    = Some (Web.send_image (Some "image/png") (Some [Byte.x89])).
Proof.
  destruct (view_failed_connection_is_retried (image_store 3) view_start
              (failing_at 1000 send_failure) (request_at 2000)
              "65a000000000000000000002" send_failure)
    as (H1 & _ & _ & _ & H5);
    [apply View_wf_init | reflexivity..|].
  split; [exact H1|].
  destruct (H5 eq_refl eq_refl eq_refl) as [H _]. exact H.
Defined.

(** X17.  The edges of the paginated listing of [part_001], for requests
    answered from the store:
    - a missing, unparsable or zero [page] is page 1 and a missing,
      unparsable or zero [limit] is 10, so the bare [GET /api/images]
      gives the 10 newest documents;
    - a page that starts at or past the end of the store is an empty
      array with status 200, not an error. *)
Theorem list_page_defaults_and_past_the_end (db : list Model.Image)
    (st : Web.Server Retry.State) (env : Web.ReqEnv) :
  Retry_wf (Web.conn st) →
  Web.connect_outcome env = Connected →
  Web.query_fault env = None →
  (∀ page_q limit_q,
     page_q ∈ [None; Some 0; Some 1] →
     limit_q ∈ [None; Some 0; Some 10] →
     Cache.getCachedData Retry.CACHE_TTL (Web.cache st) (Web.t_read env)
       (Web.page_key 1) = None →
     fst (Web.paged_list_page env db page_q limit_q st)
     = Some (Web.json (Web.BJson (Web.CImages
               (take 10 (Model.find_sorted db))))))
  ∧ (∀ p n,
       1 ≤ p → 1 ≤ n → Z.of_nat (length db) ≤ (p - 1) * n →
       Cache.getCachedData Retry.CACHE_TTL (Web.cache st) (Web.t_read env)
         (Web.page_key p) = None →
       fst (Web.paged_list_page env db (Some p) (Some n) st)
       = Some (Web.json (Web.BJson (Web.CImages [])))).
Proof.
  intros Hwf Hok Hfault.
  assert (connects Retry.await_connectDB env st) as Hconn.
  { exists JTrue. rewrite Hok. by apply Retry_await_connected. }
  split.
  - intros page_q limit_q Hp Hl Hget.
    assert (js_or_int page_q 1 = 1) as Hp1.
    { rewrite !elem_of_cons, elem_of_nil in Hp.
      destruct Hp as [->|[->|[->|[]]]]; reflexivity. }
    assert (js_or_int limit_q 10 = 10) as Hl1.
    { rewrite !elem_of_cons, elem_of_nil in Hl.
      destruct Hl as [->|[->|[->|[]]]]; reflexivity. }
    assert (Web.paged_list_page env db page_q limit_q st
            = Web.paged_list_page env db (Some 1) (Some 10) st) as ->.
    { unfold Web.paged_list_page, Web.list_page. by rewrite Hp1, Hl1. }
    unfold Web.paged_list_page.
    rewrite list_page_miss by (done || lia). cbn [fst].
    change (Z.to_nat ((1 - 1) * 10)) with 0%nat.
    change (Z.to_nat 10) with 10%nat. by rewrite drop_0.
  - intros p n Hp Hn Hlen Hget. unfold Web.paged_list_page.
    rewrite list_page_miss by done. cbn [fst].
    rewrite drop_ge; [by rewrite take_nil|].
    pose proof (find_sorted_perm db) as Hperm.
    apply Permutation_length in Hperm. lia.
Qed.

Lemma list_page_defaults_and_past_the_end_witness :
  fst (Web.paged_list_page (request_at 1000) (sample_store 15) None None
         paged_start)
  = Some (Web.json (Web.BJson (Web.CImages
            (take 10 (Model.find_sorted (sample_store 15))))))
  ∧ fst (Web.paged_list_page (request_at 1000) (sample_store 15) (Some 3)
           (Some 10) paged_start)
    = Some (Web.json (Web.BJson (Web.CImages []))).
Proof.
  destruct (list_page_defaults_and_past_the_end (sample_store 15) paged_start
              (request_at 1000))
    as [H1 H2]; [apply Retry_wf_init | reflexivity..|].
  split.
  - apply H1; [apply list_elem_of_here..|reflexivity].
  - apply H2; [lia | lia | vm_compute; discriminate | reflexivity].
Defined.

(** ** More on the cache ([view.js] 80-96, [part_001] 233-249) *)

(** X18.  Entries of the cache do not disturb one another and do not come
    back: writing one key leaves the lookups of every other key as they
    were; a key that is absent or expired at one time is absent at every
    later time, until it is written again; and of two writes to a key
    only the later one remains. *)
Theorem cache_entries_independent_expiry_final {V : Type} (ttl : Z)
    (cache : gmap string (Cache.CacheEntry V)) (key : string) (value : V)
    (t_set : Z) :
  (∀ other now, other ≠ key →
     Cache.getCachedData ttl (Cache.setCachedData cache t_set key value)
       now other
     = Cache.getCachedData ttl cache now other)
  ∧ (∀ now later, now ≤ later →
       Cache.getCachedData ttl cache now key = None →
       Cache.getCachedData ttl cache later key = None)
  ∧ (∀ value' t_set',
       Cache.setCachedData (Cache.setCachedData cache t_set key value)
         t_set' key value'
       = Cache.setCachedData cache t_set' key value').
Proof.
  split_and!.
  - intros other now Hne. unfold Cache.getCachedData, Cache.setCachedData.
    by rewrite lookup_insert_ne.
  - intros now later Hle. rewrite !getCachedData_None.
    intros H e He. specialize (H e He). lia.
  - intros value' t_set'. unfold Cache.setCachedData. apply insert_insert_eq.
Qed.

Lemma cache_entries_independent_expiry_final_witness :
  Cache.getCachedData View.CACHE_TTL
    (Cache.setCachedData (Cache.setCachedData ∅ 0 "all_images" 1%nat)
       1000 "image_a" 2%nat) 2000 "all_images"
  = Cache.getCachedData View.CACHE_TTL
      (Cache.setCachedData ∅ 0 "all_images" 1%nat) 2000 "all_images".
Proof.
  apply (proj1 (cache_entries_independent_expiry_final View.CACHE_TTL
                  (Cache.setCachedData ∅ 0 "all_images" 1%nat)
                  "image_a" 2%nat 1000)).
  discriminate.
Defined.

(** ** The servers without a cache ([part_000] 68-95, [part_001] 32-55) *)

(** X19.  The lazy connection of [part_000] changes nothing a client
    sees but a header: its image and listing routes always answer, with
    the status and the body that the routes of the first server of
    [part_001] (connected at start-up, no [connectDB]) give for the same
    store and the same outcome of the query, whether the connection
    attempt of the request succeeded or failed. *)
Theorem Plain_routes_answer_like_simple (env : Web.ReqEnv)
    (db : list Model.Image) (id : string) (s : Plain.State) :
  (∃ resp, fst (PlainServer.get_image env db id s) = Some resp
           ∧ status_body resp
             = status_body (SimpleServer.get_image (Web.query_fault env) db id))
  ∧ (∃ resp, fst (PlainServer.list_all env db s) = Some resp
             ∧ status_body resp
               = status_body (SimpleServer.list_all (Web.query_fault env) db)).
Proof.
  unfold PlainServer.get_image, PlainServer.list_all, PlainServer.after_connect.
  pose proof (Plain_await_fulfilled (Web.connect_outcome env) s) as Hplain.
  destruct (Plain.await_connectDB _ s) as [r s']. simpl in Hplain. subst r.
  unfold SimpleServer.get_image, SimpleServer.list_all, Model.findById.
  split.
  - destruct (Web.query_fault env); [by eexists|].
    destruct (Model.cast_fails id); [by eexists|].
    destruct (find _ db); by eexists.
  - destruct (Web.query_fault env); by eexists.
Qed.
